(** * Association matching engine of [jwst.associations.association]

    A shallow embedding of the class [Association]
    (src/jwst/associations/association.py) and of the parts of the rule
    set it is used with, followed by the properties stated about it.

    Python objects are modelled by records, instance methods by functions
    in a state-and-exception monad over the instance, class attributes and
    overridable methods by a record of the rule class. Code living outside
    the files at hand (the constraint library, the level-2 base rules, the
    schema validator, the serialisation registry) is taken as a parameter
    of the development; concrete instances are given where a statement
    is to be run on an example. *)

From stdpp Require Import base option list strings gmap.
From Stdlib Require Import Ascii String Sorted.

Open Scope string_scope.
Set Warnings "-register-all".

(** ** Python values, exceptions and results *)

(** The scalar values that constraints hold and that [add] hands back as
    its [match] result: Python booleans and strings. [None] is [option]'s
    [None]. *)
Inductive Value :=
  | VBool (b : bool)
  | VStr (s : string).

#[global] Instance Value_eq_dec : EqDecision Value.
Proof. solve_decision. Defined.

(** Python truth value of a [Value]. *)
Definition truthy (v : Value) : bool :=
  match v with
  | VBool b => b
  | VStr s => negb (String.eqb s "")
  end.

(** The exceptions the modelled code raises or lets through. *)
Inductive exn :=
  | KeyError (key : string)
  | TypeError
  | AttributeError
  | NotImplementedError (msg : string)
  | UnboundLocalError (var : string)
  | AssociationNotValidError (msg : string)
  | ValidationError
  | OtherError (msg : string).

#[global] Instance exn_eq_dec : EqDecision exn.
Proof. solve_decision. Defined.

Inductive Result (A : Type) :=
  | Ok (a : A)
  | Raise (e : exn).
Arguments Ok {A} a.
Arguments Raise {A} e.

(** ** A state-and-exception monad

    [M S A] is a computation on a mutable object of type [S] that either
    returns an [A] or raises; in both cases the mutations done so far
    stay. *)
Definition M (S A : Type) : Type := S -> Result A * S.

Definition ret {S A} (a : A) : M S A := fun s => (Ok a, s).
Definition bind {S A B} (m : M S A) (k : A -> M S B) : M S B := fun s =>
  match m s with
  | (Ok a, s') => k a s'
  | (Raise e, s') => (Raise e, s')
  end.

Declare Scope M_scope.
Delimit Scope M_scope with M.
Notation "x ← y ; z" := (bind y (fun x => z))
  (at level 20, y at level 100, z at level 200, only parsing) : M_scope.
Notation "' x ← y ; z" := (bind y (fun x => z))
  (at level 20, x pattern, y at level 100, z at level 200, only parsing) : M_scope.
Notation "x ;; z" := (bind x (fun _ => z))
  (at level 100, z at level 200, only parsing, right associativity) : M_scope.
Open Scope M_scope.

Definition raise {S A} (e : exn) : M S A := fun s => (Raise e, s).
Definition get {S} : M S S := fun s => (Ok s, s).
Definition gets {S A} (f : S -> A) : M S A := fun s => (Ok (f s), s).
Definition modify {S} (f : S -> S) : M S unit := fun s => (Ok tt, f s).

(** [try: m except h]: run [m]; an exception is passed to [h], which
    either handles it ([Some]) or lets it through ([None]). *)
Definition try_except {S A} (m : M S A) (h : exn -> option (M S A)) : M S A :=
  fun s =>
    match m s with
    | (Ok a, s') => (Ok a, s')
    | (Raise e, s') =>
        match h e with
        | Some k => k s'
        | None => (Raise e, s')
        end
    end.

(** ** Items and reprocessing requests *)

(** An item is one exposure's metadata: attribute name to value. *)
Abbreviation Item := (gmap string string).

Abbreviation RuleId := string.

Inductive ListCategory := RULES | BOTH | EXISTING | NONSCIENCE | NONE.

(** [ProcessList]: a request to offer items again. Only the fields
    touched by [Association.check_and_set_constraints] matter here. *)
Record ProcessList := mkProcessList {
  items : list Item;
  work_over : ListCategory;
  rules : option (list RuleId);
  trigger_rules : gset RuleId;
}.

(** The loop body at the end of [check_and_set_constraints]:
    [process_list.trigger_rules.update([type(self)])], and [rules] set to
    [[type(self)]] when it is [None]. *)
Definition set_trigger (rule : RuleId) (process_list : ProcessList) : ProcessList :=
  {| items := items process_list;
     work_over := work_over process_list;
     rules := match rules process_list with
              | None => Some [rule]
              | Some r => Some r
              end;
     trigger_rules := {[rule]} ∪ trigger_rules process_list |}.

(** ** [re.escape] *)

(** Python 3.7+ [re.escape] puts a backslash in front of each of
    [()[]{}?*+-|^$\.&~#], space, tab, newline, return, vertical tab and
    form feed, and leaves every other character alone. *)
Definition special_codes : list nat :=
  [40; 41; 91; 93; 123; 125; 63; 42; 43; 45; 124; 94; 36; 92; 46; 38; 126;
   35; 32; 9; 10; 13; 11; 12].

Definition is_special (c : ascii) : bool :=
  bool_decide (nat_of_ascii c ∈ special_codes).

Definition backslash : ascii := ascii_of_nat 92.
Definition bar : ascii := ascii_of_nat 124.

Fixpoint re_escape (s : string) : string :=
  match s with
  | EmptyString => EmptyString
  | String c rest =>
      if is_special c then String backslash (String c (re_escape rest))
      else String c (re_escape rest)
  end.

(** ** [Association.match_constraint] *)

Section MatchConstraint.

(** [jwst.associations.lib.constraint.meets_conditions (value, conditions)]:
    does the string [value] match the pattern [conditions]? It is
    imported by association.py; its body is not part of the files at
    hand. *)
Variable meets_conditions : string -> string -> bool.

(** The [conditions] dictionary of [match_constraint]. The key
    [force_unique] is read with [dict.get] and so may be absent. *)
Record Conditions := mkConditions {
  inputs : Item -> string;
  value : option string;
  found_values : gset string;
  force_unique : option bool;
}.

Definition DEFAULT_FORCE_UNIQUE : bool := false.

Definition set_found_values (f : gset string) (c : Conditions) : Conditions :=
  {| inputs := inputs c; value := value c; found_values := f;
     force_unique := force_unique c |}.
Definition set_value (v : option string) (c : Conditions) : Conditions :=
  {| inputs := inputs c; value := v; found_values := found_values c;
     force_unique := force_unique c |}.
Definition set_force_unique (b : option bool) (c : Conditions) : Conditions :=
  {| inputs := inputs c; value := value c; found_values := found_values c;
     force_unique := b |}.

(** [match_constraint (self, item, conditions)] returns
    [(matches, reprocess)] and mutates [conditions] in place: the
    dictionary after the call is the second component. *)
Definition match_constraint (item : Item) (conditions : Conditions)
  : (bool * list ProcessList) * Conditions :=
  let reprocess : list ProcessList := [] in
  let evaled_str := inputs conditions item in
  let fails :=
    match value conditions with
    | Some v => negb (meets_conditions evaled_str v)
    | None => false
    end in
  if fails then ((false, reprocess), conditions)
  else
    let escaped_value := re_escape evaled_str in
    let conditions :=
      set_found_values ({[escaped_value]} ∪ found_values conditions) conditions in
    let conditions :=
      if bool_decide (value conditions = None)
         || default DEFAULT_FORCE_UNIQUE (force_unique conditions)
      then set_force_unique (Some false) (set_value (Some escaped_value) conditions)
      else conditions in
    ((true, reprocess), conditions).

(** The same conditions offered a run of items, one after the other:
    the verdicts, and the conditions at the end. *)
Fixpoint match_items (items : list Item) (conditions : Conditions)
  : list bool * Conditions :=
  match items with
  | [] => ([], conditions)
  | item :: rest =>
      let r := match_constraint item conditions in
      let rs := match_items rest (snd r) in
      (fst (fst r) :: fst rs, snd rs)
  end.

End MatchConstraint.

(** ** JSON-like data: the association document *)

(** The association's [data] is a Python dictionary of JSON-like values.
    Dictionaries keep insertion order, hence association lists. *)
Inductive JVal :=
  | JNull
  | JBool (b : bool)
  | JStr (s : string)
  | JList (l : list JVal)
  | JDict (d : list (string * JVal)).

Abbreviation Dict := (list (string * JVal)).

Fixpoint dict_get (k : string) (d : Dict) : option JVal :=
  match d with
  | [] => None
  | (k', v) :: d' => if String.eqb k k' then Some v else dict_get k d'
  end.

(** [d[k] = v]: replace in place, or append a new key. *)
Fixpoint dict_set (k : string) (v : JVal) (d : Dict) : Dict :=
  match d with
  | [] => [(k, v)]
  | (k', v') :: d' =>
      if String.eqb k k' then (k, v) :: d' else (k', v') :: dict_set k v d'
  end.

(** [obj[key]] for a string key. *)
Definition subscript (obj : JVal) (key : string) : Result JVal :=
  match obj with
  | JDict d =>
      match dict_get key d with
      | Some v => Ok v
      | None => Raise (KeyError key)
      end
  | _ => Raise TypeError
  end.

Fixpoint chars (s : string) : list string :=
  match s with
  | EmptyString => []
  | String c rest => String c EmptyString :: chars rest
  end.

(** [for x in obj]: the elements a [for] loop goes through. *)
Definition iterate (obj : JVal) : Result (list JVal) :=
  match obj with
  | JList l => Ok l
  | JDict d => Ok (map (fun kv => JStr (fst kv)) d)
  | JStr s => Ok (map JStr (chars s))
  | _ => Raise TypeError
  end.

(** ** [pathlib.Path], as far as [validate] uses it *)

Definition slash : ascii := ascii_of_nat 47.

(** [s.split("/")] *)
Fixpoint split_slash (s : string) : list string :=
  match s with
  | EmptyString => [EmptyString]
  | String c rest =>
      if Ascii.eqb c slash then EmptyString :: split_slash rest
      else
        match split_slash rest with
        | [] => [String c EmptyString]
        | p :: ps => String c p :: ps
        end
  end.

(** A pure POSIX path: its root (["/"] or empty) and its components,
    with empty and ["."] components dropped. Two leading slashes, which
    POSIX keeps apart as a root of their own, count as a root here: only
    whether there is a root matters to [validate]. *)
Record PurePath := mkPath {
  root : string;
  tail : list string;
}.

#[global] Instance PurePath_eq_dec : EqDecision PurePath.
Proof. solve_decision. Defined.

Definition Path (s : string) : PurePath :=
  {| root := match s with
             | String c _ => if Ascii.eqb c slash then "/" else ""
             | EmptyString => ""
             end;
     tail := filter (fun p => p <> "" /\ p <> ".") (split_slash s) |}.

(** [Path()] is the current directory. *)
Definition Path_cwd : PurePath := Path "".

(** [p.parent]: the path without its last component; a path without
    components is its own parent. *)
Definition parent (p : PurePath) : PurePath :=
  match tail p with
  | [] => p
  | _ => {| root := root p; tail := removelast (tail p) |}
  end.

(** ** Documents with the expected structure *)

(** The [expname] of a member and the members of a product, when the
    document has them where [validate] looks. *)
Definition member_expname (member : JVal) : option string :=
  match subscript member "expname" with
  | Ok (JStr s) => Some s
  | _ => None
  end.

Definition product_members (product : JVal) : option (list JVal) :=
  match subscript product "members" with
  | Ok (JList ms) => Some ms
  | _ => None
  end.

Definition document_products (d : Dict) : option (list JVal) :=
  match dict_get "products" d with
  | Some (JList ps) => Some ps
  | _ => None
  end.

Definition sound_product (product : JVal) : bool :=
  match product_members product with
  | Some ms => forallb (fun m => bool_decide (is_Some (member_expname m))) ms
  | None => false
  end.

(** A document is structurally sound when [products] is a list of
    products, each with a list of members, each with a string [expname]. *)
Definition sound_document (d : Dict) : bool :=
  match document_products d with
  | Some ps => forallb sound_product ps
  | None => false
  end.

(** The file references of a document, product by product. *)
Definition product_expnames (product : JVal) : list string :=
  omap member_expname (default [] (product_members product)).

Definition expnames (d : Dict) : list string :=
  List.concat (map product_expnames (default [] (document_products d))).

(** A file reference has a directory part when the parent of its path
    is not the current directory. *)
Definition has_directory (expname : string) : bool :=
  bool_decide (parent (Path expname) <> Path_cwd).

(** ** The constraint tree, as [Association] uses it *)

(** [Association] holds a constraint tree, [self.constraints], of class
    [jwst.associations.lib.constraint.Constraint], and uses four of its
    operations. The class itself is not part of the files at hand, so the
    operations are an interface. *)
Class ConstraintTree (C : Type) := {
  (** [constraints.preserve()] *)
  preserve : C -> C;
  (** [constraints.restore()] *)
  restore : C -> C;
  (** [constraints.check_and_set(item)], giving [(match, reprocess)] *)
  check_and_set : Item -> C -> (bool * list ProcessList) * C;
  (** [constraints[name].value]; [Ok None] when the value is [None] *)
  getitem_value : string -> C -> Result (option Value);
}.

(** ** The association object *)

(** The instance attributes set by [Association.__init__], and
    [accepted_items], the identities of the items merged so far, which
    the rule variants keep. *)
Record Association (C : Type) := mkAssociation {
  data : Dict;
  run_init_hook : bool;
  meta : Dict;
  version_id : option string;
  constraints : C;
  accepted_items : gset Item;
}.
Arguments mkAssociation {C}.
Arguments data {C}.
Arguments run_init_hook {C}.
Arguments meta {C}.
Arguments version_id {C}.
Arguments constraints {C}.
Arguments accepted_items {C}.

Definition set_data {C} (d : Dict) (a : Association C) : Association C :=
  mkAssociation d (run_init_hook a) (meta a) (version_id a) (constraints a)
    (accepted_items a).
Definition set_run_init_hook {C} (b : bool) (a : Association C) : Association C :=
  mkAssociation (data a) b (meta a) (version_id a) (constraints a)
    (accepted_items a).
Definition set_constraints {C} (c : C) (a : Association C) : Association C :=
  mkAssociation (data a) (run_init_hook a) (meta a) (version_id a) c
    (accepted_items a).
Definition set_accepted_items {C} (s : gset Item) (a : Association C)
  : Association C :=
  mkAssociation (data a) (run_init_hook a) (meta a) (version_id a)
    (constraints a) s.

(** Keyword arguments. *)
Abbreviation Kwargs := (gmap string Value).

(** One entry of the I/O registry: a serialisation format with its
    [load] and [dump] class methods. *)
Record IOFormat (C : Type) := mkIOFormat {
  io_load : string -> Kwargs -> Result (Association C);
  io_dump : Association C -> Kwargs -> Result (string * string);
}.
Arguments mkIOFormat {C}.
Arguments io_load {C}.
Arguments io_dump {C}.

(** A rule class: the class attributes and the methods that subclasses
    of [Association] override. [schema_file] is [None] when the class has
    no such attribute. *)
Record RuleClass (C : Type) := mkRuleClass {
  rule_name : RuleId;
  schema_file : option string;
  ioregistry : list (string * IOFormat C);
  is_item_member : Item -> M (Association C) bool;
  _init_hook : Item -> M (Association C) unit;
  _add : Item -> M (Association C) unit;
}.
Arguments mkRuleClass {C}.
Arguments rule_name {C}.
Arguments schema_file {C}.
Arguments ioregistry {C}.
Arguments is_item_member {C}.
Arguments _init_hook {C}.
Arguments _add {C}.

(** The methods as [Association] itself defines them. *)
Definition Association_base {C} (reg : list (string * IOFormat C)) : RuleClass C :=
  {| rule_name := "Association";
     schema_file := None;
     ioregistry := reg;
     is_item_member := fun _ =>
       raise (NotImplementedError
         "Association.is_item_member must be implemented by a specific association rule.");
     _init_hook := fun _ => ret tt;
     _add := fun _ =>
       raise (NotImplementedError
         "Association._add must be implemented by a specific association rule.") |}.

(** What lies outside Python and the package: reading the schema file
    ([Path(cls.schema_file).open] and [json.load]) and
    [jsonschema.validate (instance, schema)]. *)
Record Externals := mkExternals {
  open_schema : string -> Result JVal;
  jsonschema_validate : Dict -> JVal -> Result unit;
}.

(** Messages that reach the user: [logger.warning] and [warnings.warn].
    Debug-level log lines are left out. *)
Inductive Warning :=
  | LoggerWarning (msg : string)
  | UserWarning (msg : string).

#[global] Instance Warning_eq_dec : EqDecision Warning.
Proof. solve_decision. Defined.

Definition warn (w : Warning) : M (list Warning) unit :=
  modify (fun log => (log ++ [w])%list).

Definition of_result {S A} (r : Result A) : M S A := fun s => (r, s).

Fixpoint for_each {S A} (l : list A) (body : A -> M S unit) : M S unit :=
  match l with
  | [] => ret tt
  | x :: l' => body x;; for_each l' body
  end.

Definition path_warning : string :=
  "Input association file contains path information; note that this can complicate usage and/or sharing of such files.".

(** The warnings that the file references of a document call for. *)
Definition path_warnings (d : Dict) : list Warning :=
  map (fun _ => UserWarning path_warning) (List.filter has_directory (expnames d)).

(** What [finalize] hands back: [None] or a list of associations. [RObj]
    is an association handed back as such. *)
Inductive Returned (C : Type) :=
  | RNone
  | RObj (a : Association C)
  | RList (l : list (Association C)).
Arguments RNone {C}.
Arguments RObj {C} a.
Arguments RList {C} l.

(** [registry[key]] *)
Definition registry_getitem {C} (reg : list (string * IOFormat C)) (key : Value)
  : Result (IOFormat C) :=
  match key with
  | VStr k =>
      match List.find (fun kv => String.eqb k (fst kv)) reg with
      | Some kv => Ok (snd kv)
      | None => Raise (KeyError k)
      end
  | VBool _ => Raise (KeyError "")
  end.

(** ** The methods of [Association] *)

Section AssociationMethods.

Context {C : Type} `{!ConstraintTree C}.
Variable ext : Externals.
(** [cls], or [type(self)]. *)
Variable cls : RuleClass C.

(** The body of the inner loop of [validate]: a member whose
    [expname] has a parent directory gets a warning. *)
Definition check_expname (member : JVal) : M (list Warning) unit :=
  expname ← of_result (subscript member "expname");
  fpath ← of_result
    match expname with
    | JStr s => Ok (parent (Path s))
    | _ => Raise TypeError
    end;
  if bool_decide (fpath <> Path_cwd)
  then warn (UserWarning path_warning)
  else ret tt.

(** The body of the outer loop. *)
Definition check_members (product : JVal) : M (list Warning) unit :=
  members ← of_result (subscript product "members");
  members ← of_result (iterate members);
  for_each members check_expname.

(** [Association.validate (cls, asn)], on the data of [asn]. *)
Definition validate (asn_data : Dict) : M (list Warning) bool :=
  match schema_file cls with
  | None =>
      warn (LoggerWarning "Cannot validate: the rule has no schema. Presuming OK.");;
      ret true
  | Some file =>
      asn_schema ← of_result (open_schema ext file);
      try_except
        (of_result (jsonschema_validate ext asn_data asn_schema))
        (fun err =>
           match err with
           | AttributeError | ValidationError =>
               Some (raise (AssociationNotValidError "Validation failed"))
           | _ => None
           end);;
      (* Validate no path data for expnames *)
      products ← of_result (subscript (JDict asn_data) "products");
      products ← of_result (iterate products);
      for_each products check_members;;
      ret true
  end.

(** The property [is_valid]. *)
Definition is_valid (self : Association C) : M (list Warning) bool :=
  try_except
    (validate (data self);; ret true)
    (fun err =>
       match err with
       | AssociationNotValidError _ => Some (ret false)
       | _ => None
       end).

(** [Association.finalize (self)] *)
Definition finalize (self : Association C) : M (list Warning) (Returned C) :=
  valid ← is_valid self;
  if valid then ret (RList [self]) else ret RNone.

(** [Association.dump (self, fmt=None, **kwargs)] *)
Definition dump (self : Association C) (fmt : option Value) (kwargs : Kwargs)
  : M (list Warning) (string * string) :=
  (* if fmt is None: fmt = kwargs.pop("format", "json") *)
  let fmt_kwargs : Value * Kwargs :=
    match fmt with
    | Some f => (f, kwargs)
    | None => (default (VStr "json") (kwargs !! "format"), delete "format" kwargs)
    end in
  let fmt := fst fmt_kwargs in
  let kwargs := snd fmt_kwargs in
  valid ← is_valid self;
  if valid then
    io ← of_result (registry_getitem (ioregistry cls) fmt);
    of_result (io_dump io self kwargs)
  else raise (AssociationNotValidError "Association is not valid").

(** The [for ... try ... except ... continue ... else: break ... else: raise]
    loop of [load]. *)
Fixpoint try_formats (formats : list (IOFormat C)) (serialized : string)
    (kwargs : Kwargs) : Result (Association C) :=
  match formats with
  | [] => Raise (AssociationNotValidError "Cannot translate to an association")
  | format_func :: rest =>
      match io_load format_func serialized kwargs with
      | Ok asn => Ok asn
      | Raise (AssociationNotValidError _) => try_formats rest serialized kwargs
      | Raise e => Raise e
      end
  end.

(** [Association.load (cls, serialized, fmt=None, validate=True, **kwargs)] *)
Definition load (serialized : string) (fmt : option Value) (validate_ : bool)
    (kwargs : Kwargs) : M (list Warning) (Association C) :=
  (* if fmt is None: fmt = kwargs.pop("format", None) *)
  let fmt_kwargs : option Value * Kwargs :=
    match fmt with
    | Some f => (Some f, kwargs)
    | None => (kwargs !! "format", delete "format" kwargs)
    end in
  let fmt := fst fmt_kwargs in
  let kwargs := snd fmt_kwargs in
  formats ← match fmt with
            | None => ret (map snd (ioregistry cls))
            | Some f => io ← of_result (registry_getitem (ioregistry cls) f);
                        ret [io]
            end;
  asn ← of_result (try_formats formats serialized kwargs);
  (if validate_ then validate (data asn);; ret tt else ret tt);;
  ret asn.

(** [Association.check_and_set_constraints (self, item)] *)
Definition check_and_set_constraints (item : Item)
  : M (Association C) (bool * list ProcessList) :=
  modify (fun self => set_constraints (preserve (constraints self)) self);;
  self ← get;
  let '((match_, reprocess), c') := check_and_set item (constraints self) in
  modify (set_constraints c');;
  (if match_ then ret tt
   else modify (fun self => set_constraints (restore (constraints self)) self));;
  (* Set the association type for all reprocessed items. *)
  let reprocess := map (set_trigger (rule_name cls)) reprocess in
  ret (match_, reprocess).

(** [Association.add (self, item, check_constraints=True)]. The local
    variable [reprocess] is bound only in the constraint-checking branch:
    it is an [option], and reading it unbound raises. *)
Definition add (item : Item) (check_constraints : bool)
  : M (Association C) (Value * list ProcessList) :=
  member ← is_item_member cls item;
  if member then ret (VBool true, [])
  else
    let match_ := negb check_constraints in
    '(match_, reprocess) ←
      (if check_constraints
       then '(m, r) ← check_and_set_constraints item; ret (m, Some r)
       else ret (match_, None));
    (if match_ then
       run ← gets run_init_hook;
       (if run then _init_hook cls item;; modify (set_run_init_hook false)
        else ret tt);;
       _add cls item
     else ret tt);;
    (* If a constraint [force_match] exists, set the [match] result to
       the value of the constraint. *)
    force_match ←
      try_except
        (self ← get;
         v ← of_result (getitem_value "force_match" (constraints self));
         ret (Some v))
        (fun err =>
           match err with
           | KeyError _ | TypeError => Some (ret None)
           | _ => None
           end);
    let match_ :=
      match force_match with
      | Some (Some fm) => fm
      | _ => VBool match_
      end in
    match reprocess with
    | Some reprocess => ret (match_, reprocess)
    | None => raise (UnboundLocalError "reprocess")
    end.

End AssociationMethods.

(** ** The constraint library, from its description *)

(** Modelled from the spec: [meets_conditions] of
    jwst/associations/lib/constraint.py, which is not among the files at
    hand. A pattern is an alternation of literal alternatives, [a|b|c],
    each possibly holding escaped characters; a value matches when it is
    one of the alternatives. *)
Definition cons_head (c : ascii) (alts : list string) : list string :=
  match alts with
  | [] => [String c EmptyString]
  | a :: rest => String c a :: rest
  end.

Fixpoint alternatives (pattern : string) : list string :=
  match pattern with
  | EmptyString => [EmptyString]
  | String c rest =>
      if Ascii.eqb c backslash then
        match rest with
        | String c' rest' => cons_head c' (alternatives rest')
        | EmptyString => [String c EmptyString]
        end
      else if Ascii.eqb c bar then EmptyString :: alternatives rest
      else cons_head c (alternatives rest)
  end.

Definition meets_conditions_spec (value pattern : string) : bool :=
  existsb (String.eqb value) (alternatives pattern).







(** Modelled from the spec: the constraint tree of
    jwst/associations/lib/constraint.py, which is not among the files at
    hand. A node resolves a value from the item, either the first of its
    source attributes the item has or, as the [force_match] node of
    [Asn_Lv2MIRLRSFixedSlitNod] does, by a function of the item; it
    compares the value with its expected value by its test; on a match it
    records the value and, when [force_unique], binds the expected value
    to it. *)
Inductive Sources :=
  | Attrs (names : list string)
  | Computed (f : Item -> Value).

#[global] Instance Value_countable : Countable Value.
Proof.
  refine (inj_countable'
            (fun v => match v with VBool b => inl b | VStr s => inr s end)
            (fun x => match x with inl b => VBool b | inr s => VStr s end) _).
  intros []; reflexivity.
Defined.

Record ConstraintNode := mkNode {
  node_name : option string;
  node_sources : Sources;
  node_expected : option Value;
  node_test : Value -> Value -> bool;
  node_required : bool;
  node_force_unique : bool;
  node_found_values : gset Value;
}.

(** The match of a resolved value against a pattern. *)
Definition pattern_test (expected v : Value) : bool :=
  match expected, v with
  | VStr p, VStr s => meets_conditions_spec s p
  | VBool a, VBool b => Bool.eqb a b
  | _, _ => false
  end.

Definition escape_value (v : Value) : Value :=
  match v with
  | VStr s => VStr (re_escape s)
  | VBool b => VBool b
  end.

Definition resolve (src : Sources) (item : Item) : option Value :=
  match src with
  | Attrs names => VStr <$> head (omap (fun n => item !! n) names)
  | Computed f => Some (f item)
  end.

Definition evaluate_node (item : Item) (n : ConstraintNode)
  : bool * ConstraintNode :=
  match resolve (node_sources n) item with
  | None => (negb (node_required n), n)
  | Some v =>
      let matches :=
        match node_expected n with
        | None => true
        | Some e => node_test n e v
        end in
      if matches then
        (true,
         {| node_name := node_name n;
            node_sources := node_sources n;
            node_expected := if node_force_unique n then Some (escape_value v)
                             else node_expected n;
            node_test := node_test n;
            node_required := node_required n;
            node_force_unique := node_force_unique n;
            node_found_values := {[v]} ∪ node_found_values n |})
      else (false, n)
  end.

Inductive ReduceOp := ALL | ANY | NOTANY | NOTALL.

Definition reduce (op : ReduceOp) (results : list bool) : bool :=
  match op with
  | ALL => forallb id results
  | ANY => existsb id results
  | NOTANY => negb (existsb id results)
  | NOTALL => negb (forallb id results)
  end.

Inductive Constraint :=
  | Simple (n : ConstraintNode)
  | Composite (op : ReduceOp) (children : list Constraint).

(** Every child is evaluated, whatever the results of its siblings. *)
Fixpoint evaluate (item : Item) (c : Constraint) : bool * Constraint :=
  match c with
  | Simple n => let r := evaluate_node item n in (fst r, Simple (snd r))
  | Composite op children =>
      let rs := map (evaluate item) children in
      (reduce op (map fst rs), Composite op (map snd rs))
  end.

(** [tree[key]]: the first node of that name, depth first. *)
Fixpoint find_named (key : string) (c : Constraint) : option ConstraintNode :=
  match c with
  | Simple n => if bool_decide (node_name n = Some key) then Some n else None
  | Composite _ children =>
      fold_right
        (fun child found =>
           match find_named key child with
           | Some n => Some n
           | None => found
           end)
        None children
  end.

(** The tree with its snapshots: [preserve] pushes the current tree,
    [restore] pops it back; with nothing to pop, [restore] does nothing. *)
Record ConstraintState := mkState {
  tree : Constraint;
  history : list Constraint;
}.

#[global] Instance Constraint_tree : ConstraintTree ConstraintState := {|
  preserve s := {| tree := tree s; history := tree s :: history s |};
  restore s :=
    match history s with
    | t :: h => {| tree := t; history := h |}
    | [] => s
    end;
  check_and_set item s :=
    let r := evaluate item (tree s) in
    ((fst r, []), {| tree := snd r; history := history s |});
  getitem_value key s :=
    match find_named key (tree s) with
    | Some n => Ok (node_expected n)
    | None => Raise (KeyError key)
    end;
|}.

(** ** A rule variant, from its description *)

(** Modelled from the spec: the methods [is_item_member], [_init_hook]
    and [_add] that a rule variant supplies (jwst/associations/lib/
    rules_level2_base.py is not among the files at hand). An item is a
    member when its identity is among the accepted items; the first
    accepted item fixes [asn_type]; adding appends the item to
    [products[0].members] with its exposure type and records its
    identity. *)
Definition make_member (item : Item) : JVal :=
  JDict [("expname", JStr (default "" (item !! "filename")));
         ("exptype", JStr (default "science" (item !! "exptype")))].

Definition append_member (member : JVal) (d : Dict) : Dict :=
  match dict_get "products" d with
  | Some (JList (JDict product :: others)) =>
      let members :=
        match dict_get "members" product with
        | Some (JList ms) => ms
        | _ => []
        end in
      dict_set "products"
        (JList (JDict (dict_set "members" (JList (members ++ [member])%list) product)
                  :: others)) d
  | _ =>
      dict_set "products"
        (JList [JDict [("name", JStr "product"); ("members", JList [member])]]) d
  end.

Definition rule_variant (name : RuleId) (asn_type : string)
    (schema : option string) (reg : list (string * IOFormat ConstraintState))
  : RuleClass ConstraintState :=
  {| rule_name := name;
     schema_file := schema;
     ioregistry := reg;
     is_item_member := fun item =>
       gets (fun self => bool_decide (item ∈ accepted_items self));
     _init_hook := fun _ =>
       modify (fun self => set_data (dict_set "asn_type" (JStr asn_type) (data self)) self);
     _add := fun item =>
       modify (fun self =>
         set_accepted_items ({[item]} ∪ accepted_items self)
           (set_data (append_member (make_member item) (data self)) self)) |}.

(** ** The items of a run that matched *)

(** The items of a run that a constraint matched, in their order. *)
Definition matched_items (meets_conditions : string -> string -> bool)
    (items : list Item) (c : Conditions) : list Item :=
  map fst (List.filter snd (zip items (fst (match_items meets_conditions items c)))).

(** ** The mapping protocol of [Association] *)

(** Exceptions of the built-in containers that the code lets through. *)
Definition ValueError : exn := OtherError "ValueError".
Definition IndexError : exn := OtherError "IndexError".

(** [del d[k]] *)
Definition dict_del (k : string) (d : Dict) : Dict :=
  List.filter (fun kv => negb (String.eqb k (fst kv))) d.

Section MappingProtocol.

Context {C : Type}.

Definition __keytransform__ (key : string) : string := key.

Definition __getitem__ (key : string) : M (Association C) JVal :=
  self ← get;
  of_result (subscript (JDict (data self)) (__keytransform__ key)).

Definition __setitem__ (key : string) (value : JVal) : M (Association C) unit :=
  modify (fun self =>
    set_data (dict_set (__keytransform__ key) value (data self)) self).

Definition __delitem__ (key : string) : M (Association C) unit :=
  self ← get;
  match dict_get (__keytransform__ key) (data self) with
  | Some _ =>
      modify (set_data (dict_del (__keytransform__ key) (data self)))
  | None => raise (KeyError key)
  end.

Definition __iter__ : M (Association C) (list string) :=
  gets (fun self => map fst (data self)).

Definition __len__ : M (Association C) nat :=
  gets (fun self => List.length (data self)).

Definition keys : M (Association C) (list string) :=
  gets (fun self => map fst (data self)).

(** *** [dict.update]

    [d.update(other)]: a dictionary is merged key by key; anything else
    is gone through as a sequence of pairs, each element an iterable of
    exactly two objects, the key and the value. The dictionary is
    changed in place, pair by pair: what was set before a failing element
    stays. *)
Definition update_pair (elem : JVal) : Result (JVal * JVal) :=
  match iterate elem with
  | Ok [k; v] => Ok (k, v)
  | Ok _ => Raise ValueError
  | Raise e => Raise e
  end.

(** The key of a pair. Lists and dictionaries cannot be hashed. [None]
    and booleans can, but the documents here have string keys only: such
    a pair is not gone into. *)
Definition update_key (k : JVal) : Result string :=
  match k with
  | JStr s => Ok s
  | JList _ | JDict _ => Raise TypeError
  | JNull | JBool _ => Raise (OtherError "not modelled: a key that is not a string")
  end.

Definition update_element (elem : JVal) : M Dict unit :=
  '(k, v) ← of_result (update_pair elem);
  k ← of_result (update_key k);
  modify (dict_set k v).

Definition dict_update (other : JVal) : M Dict unit :=
  match other with
  | JDict d => for_each d (fun kv => modify (dict_set (fst kv) (snd kv)))
  | _ => elems ← of_result (iterate other); for_each elems update_element
  end.

(** [Association._add_items (self, items)]. Only a dictionary has
    [update]; the dictionary found under [members] is updated in
    place. *)
Definition _add_items (items : JVal) : M (Association C) unit :=
  try_except
    (members ← __getitem__ "members";
     match members with
     | JDict d =>
         let r := dict_update items d in
         modify (fun self =>
           set_data (dict_set "members" (JDict (snd r)) (data self)) self);;
         of_result (fst r)
     | _ => raise AttributeError
     end)
    (fun err =>
       match err with
       | KeyError _ => Some (__setitem__ "members" items)
       | _ => None
       end).

End MappingProtocol.

(** ** Making an association *)

Section Construction.

Context {C : Type} `{!ConstraintTree C}.

(** [jwst.__version__] *)
Variable __version__ : string.
(** [Constraint()], [constraints.append(c)] and [c.copy()] of the
    constraint library. *)
Variable Constraint_ : C.
Variable append : C -> C -> C.
Variable copy : C -> C.

Variable cls : RuleClass C.
(** [self.constraints] as the rule has set it before
    [Association.__init__] runs, if it has; and the class attribute
    [GLOBAL_CONSTRAINT]. *)
Variable predefined : option C.
Variable GLOBAL_CONSTRAINT : option C.

(** The property [asn_name]. *)
Definition asn_name : string := "unnamed_association".

(** The property [asn_rule]. *)
Definition asn_rule : RuleId := rule_name cls.

(** [Association.__init__ (self, version_id=None)], giving the new
    object. *)
Definition __init__ (version_id : option string) : Association C :=
  let data : Dict := [] in
  let data :=
    snd (dict_update
           (JDict [("asn_type", JStr "None");
                   ("asn_rule", JStr asn_rule);
                   ("version_id", match version_id with
                                  | Some v => JStr v
                                  | None => JNull
                                  end);
                   ("code_version", JStr __version__)])
           data) in
  (* Setup constraints. These may be predefined by a rule. *)
  let constraints :=
    match predefined with
    | Some c => c
    | None => Constraint_
    end in
  let constraints :=
    match GLOBAL_CONSTRAINT with
    | Some g => append constraints (copy g)
    | None => constraints
    end in
  {| data := data; run_init_hook := true; meta := [];
     version_id := version_id; constraints := constraints;
     accepted_items := ∅ |}.

(** [cls (version_id=version_id)]: the constructor of the rule class,
    which for a rule is its own [__init__]. *)
Variable new : option string -> Result (Association C).

(** [Association.create (cls, item, version_id=None)] *)
Definition create (item : Item) (version_id : option string)
  : Result (option (Association C) * list ProcessList) :=
  match new version_id with
  | Ok asn =>
      match add cls item true asn with
      | (Ok (matches, reprocess), asn) =>
          if negb (truthy matches) then Ok (None, reprocess)
          else Ok (Some asn, reprocess)
      | (Raise e, _) => Raise e
      end
  | Raise e => Raise e
  end.

End Construction.

(** The rule class [cls] with another init hook. *)
Definition with_init_hook {C} (cls : RuleClass C)
    (hook : Item -> M (Association C) unit) : RuleClass C :=
  {| rule_name := rule_name cls; schema_file := schema_file cls;
     ioregistry := ioregistry cls; is_item_member := is_item_member cls;
     _init_hook := hook; _add := _add cls |}.

(** ** Finalizing a list of associations *)

(** A computation that only adds to the warnings, and whose result does
    not depend on the warnings issued before. *)
Definition appends {A} (m : M (list Warning) A) : Prop :=
  forall log, m log = (fst (m []), (log ++ snd (m []))%list).

Fixpoint map_M {S A B} (f : A -> M S B) (l : list A) : M S (list B) :=
  match l with
  | [] => ret []
  | x :: l' => y ← f x; ys ← map_M f l'; ret (y :: ys)
  end.

Definition is_not_None {C} (r : Returned C) : bool :=
  match r with
  | RNone => false
  | _ => true
  end.

(** The module-level [finalize (asns)], the generic finalize callback.
    An association comes with its class; [finalize_of] is the method
    [finalize] the class has. *)
Definition generic_finalize {C}
    (finalize_of : RuleClass C -> Association C -> M (list Warning) (Returned C))
    (asns : list (RuleClass C * Association C))
  : M (list Warning) (list (Returned C)) :=
  results ← map_M (fun asn => finalize_of (fst asn) (snd asn)) asns;
  let finalized_asns := List.filter is_not_None results in
  ret finalized_asns.

(** Whether the method [finalize] of [Association] hands an association
    back, and the warnings it issues for it. *)
Definition finalized {C} `{!ConstraintTree C} (ext : Externals)
    (ca : RuleClass C * Association C) : bool :=
  match fst (finalize ext (fst ca) (snd ca) []) with
  | Ok (RList _) => true
  | _ => false
  end.

Definition finalize_warnings {C} `{!ConstraintTree C} (ext : Externals)
    (ca : RuleClass C * Association C) : list Warning :=
  snd (finalize ext (fst ca) (snd ca) []).

(** ** Product utilities (lib/product_utils.py) *)

Definition and_then {A B} (r : Result A) (k : A -> Result B) : Result B :=
  match r with
  | Ok a => k a
  | Raise e => Raise e
  end.

Fixpoint map_R {A B} (f : A -> Result B) (l : list A) : Result (list B) :=
  match l with
  | [] => Ok []
  | x :: l' =>
      and_then (f x) (fun y => and_then (map_R f l') (fun ys => Ok (y :: ys)))
  end.

(** [obj[0]] *)
Definition subscript_0 (obj : JVal) : Result JVal :=
  match obj with
  | JList (x :: _) => Ok x
  | JList [] => Raise IndexError
  | JStr (String c _) => Ok (JStr (String c EmptyString))
  | JStr EmptyString => Raise IndexError
  | JDict _ => Raise (KeyError "0")
  | JNull | JBool _ => Raise TypeError
  end.

(** The values that can be hashed, and so counted and put in a set. *)
Inductive Scalar :=
  | SNone
  | SBool (b : bool)
  | SStr (s : string).

#[global] Instance Scalar_eq_dec : EqDecision Scalar.
Proof. solve_decision. Defined.

#[global] Instance Scalar_countable : Countable Scalar.
Proof.
  refine (inj_countable'
            (fun v => match v with
                      | SNone => inl tt
                      | SBool b => inr (inl b)
                      | SStr s => inr (inr s)
                      end)
            (fun x => match x with
                      | inl _ => SNone
                      | inr (inl b) => SBool b
                      | inr (inr s) => SStr s
                      end) _).
  intros []; reflexivity.
Defined.

(** [hash(v)] goes through for scalars only. *)
Definition scalar_of (v : JVal) : Result Scalar :=
  match v with
  | JNull => Ok SNone
  | JBool b => Ok (SBool b)
  | JStr s => Ok (SStr s)
  | JList _ | JDict _ => Raise TypeError
  end.

(** [collections.Counter]: the counts, in the order in which the
    elements were first met. *)
Fixpoint counter_add (x : Scalar) (counts : list (Scalar * nat))
  : list (Scalar * nat) :=
  match counts with
  | [] => [(x, 1)]
  | (y, n) :: rest =>
      if decide (x = y) then (y, S n) :: rest
      else (y, n) :: counter_add x rest
  end.

Definition Counter (l : list Scalar) : list (Scalar * nat) :=
  fold_left (fun counts x => counter_add x counts) l [].

(** [counts[x]], which is 0 for an element never met. *)
Fixpoint counter_get (x : Scalar) (counts : list (Scalar * nat)) : nat :=
  match counts with
  | [] => 0
  | (y, n) :: rest => if decide (x = y) then n else counter_get x rest
  end.

(** *** [sorted]

    [a < b] between two keys, the one comparison [sorted] makes: strings
    compare by their characters, booleans as 0 and 1, and a value that is
    neither has no order with any other. Lists do compare in Python,
    element by element: that comparison is not gone into here. *)
Definition key_lt (a b : JVal) : Result bool :=
  match a, b with
  | JStr x, JStr y => Ok (String.ltb x y)
  | JBool x, JBool y => Ok (negb x && y)
  | JList _, JList _ => Raise (OtherError "not modelled: comparison of lists")
  | _, _ => Raise TypeError
  end.

(** [sorted] is stable: elements with equal keys keep their order. The
    sorted list is built from the right; an element goes in before the
    first element that is not less than it. *)
Fixpoint insert_sorted {A} (x : JVal * A) (l : list (JVal * A))
  : Result (list (JVal * A)) :=
  match l with
  | [] => Ok [x]
  | y :: l' =>
      and_then (key_lt (fst y) (fst x)) (fun lt =>
        if lt then and_then (insert_sorted x l') (fun r => Ok (y :: r))
        else Ok (x :: y :: l'))
  end.

Fixpoint sorted {A} (l : list (JVal * A)) : Result (list (JVal * A)) :=
  match l with
  | [] => Ok []
  | x :: l' => and_then (sorted l') (insert_sorted x)
  end.

(** An element with its key, and the order of the keys. *)
Definition keyed {A} (key : A -> string) (a : A) : JVal * A :=
  (JStr (key a), a).

Definition key_le {A} (key : A -> string) (a b : A) : Prop :=
  String.leb (key a) (key b) = true.

Section ProductUtils.

Context {C : Type}.

(** [asn["products"][0]["name"]] *)
Definition product_name (asn : Association C) : Result JVal :=
  fst ((products ← __getitem__ "products";
        product ← of_result (subscript_0 products);
        of_result (subscript product "name")) asn).

(** [asn["asn_id"]] *)
Definition asn_id (asn : Association C) : Result JVal :=
  fst (__getitem__ "asn_id" asn).

(** [sort_by_candidate (asns)]: [sorted (asns, key=...)]. The keys are
    taken first, for every association; then the list is sorted by
    them. *)
Definition sort_by_candidate (asns : list (Association C))
  : Result (list (Association C)) :=
  and_then (map_R (fun asn => and_then (asn_id asn) (fun k => Ok (k, asn))) asns)
    (fun keyed => and_then (sorted keyed) (fun s => Ok (map snd s))).

(** [get_product_names (asns)] *)
Definition get_product_names (asns : list (Association C))
  : Result (gset Scalar * list Scalar) :=
  and_then (map_R product_name asns) (fun product_names =>
  and_then (map_R scalar_of product_names) (fun product_names =>
  let dups :=
    map fst (List.filter (fun nc => 1 <? snd nc)%nat (Counter product_names)) in
  Ok (list_to_set product_names, dups))).

End ProductUtils.

(** ** [Asn_Lv2WFSSParallel.find_closest_direct] (lib/rules_level2b.py) *)

Fixpoint is_substring (needle s : string) : bool :=
  String.prefix needle s
  || match s with
     | EmptyString => false
     | String _ rest => is_substring needle rest
     end.

(** [needle in obj], for a string [needle]. *)
Definition contains (needle : string) (obj : JVal) : Result bool :=
  match obj with
  | JStr s => Ok (is_substring needle s)
  | JList l =>
      Ok (existsb (fun x => match x with
                            | JStr s => String.eqb needle s
                            | _ => false
                            end) l)
  | JDict d => Ok (existsb (fun kv => String.eqb needle (fst kv)) d)
  | JNull | JBool _ => Raise TypeError
  end.

Fixpoint filter_R {A} (f : A -> Result bool) (l : list A) : Result (list A) :=
  match l with
  | [] => Ok []
  | x :: l' =>
      and_then (f x) (fun keep =>
      and_then (filter_R f l') (fun xs => Ok (if keep then x :: xs else xs)))
  end.

(** ["long" in d["expname"]] *)
Definition is_long (d : JVal) : Result bool :=
  and_then (subscript d "expname") (contains "long").

Definition find_closest_direct (_science : JVal) (directs : list JVal)
  : Result JVal :=
  and_then (filter_R is_long directs) (fun long_directs =>
  and_then
    (match long_directs with
     | [] =>
         (* If the search fails, just use the first. *)
         and_then (match directs with
                   | d :: _ => Ok d
                   | [] => Raise IndexError
                   end)
                  (fun first => Ok (long_directs ++ [first])%list)
     | _ => Ok long_directs
     end)
    (fun long_directs =>
       match long_directs with
       | d :: _ => Ok d
       | [] => Raise IndexError
       end)).

(** ** Example data *)

Module Examples.

(** A schema check standing for [jsonschema.validate]: the document
    must have a non-empty list of products. *)
Definition ext : Externals :=
  {| open_schema := fun _ => Ok JNull;
     jsonschema_validate := fun d _ =>
       match dict_get "products" d with
       | Some (JList (_ :: _)) => Ok tt
       | _ => Raise ValidationError
       end |}.

Definition new_data (rule : RuleId) : Dict :=
  [("asn_type", JStr "None"); ("asn_rule", JStr rule);
   ("version_id", JNull); ("code_version", JStr "1.0")].

Definition new_association (rule : RuleId) (t : Constraint)
  : Association ConstraintState :=
  {| data := new_data rule; run_init_hook := true; meta := [];
     version_id := None; constraints := {| tree := t; history := [] |};
     accepted_items := ∅ |}.

Definition attr_node (name : string) (expected : option string)
    (force_unique : bool) : ConstraintNode :=
  {| node_name := Some name; node_sources := Attrs [name];
     node_expected := VStr <$> expected; node_test := pattern_test;
     node_required := true; node_force_unique := force_unique;
     node_found_values := ∅ |}.

(** The node [force_match] as [Asn_Lv2MIRLRSFixedSlitNod] declares it,
    starting from the value [start]. *)
Definition force_match_node (start : option Value) (source : bool)
  : ConstraintNode :=
  {| node_name := Some "force_match";
     node_sources := Computed (fun _ => VBool source);
     node_expected := start; node_test := fun _ _ => true;
     node_required := true; node_force_unique := true;
     node_found_values := ∅ |}.

(** A cut-down tree of [Asn_Lv2MIRLRSFixedSlitNod]. *)
Definition nod_tree (start : option Value) (source : bool) : Constraint :=
  Composite ALL
    [Simple (attr_node "exp_type" (Some "mir_lrs\-fixedslit") false);
     Composite ANY
       [Composite ALL [Simple (attr_node "patt_num" None true)];
        Composite ALL [Simple (force_match_node start source)]]].

(** The same without a [force_match] node. *)
Definition plain_tree : Constraint :=
  Composite ALL
    [Simple (attr_node "exp_type" (Some "mir_lrs\-fixedslit") false);
     Simple (attr_node "patt_num" None true)].

Definition item_nod1 : Item :=
  {[ "exp_type" := "mir_lrs-fixedslit"; "patt_num" := "1";
     "filename" := "jw_nod1_rate.fits" ]}.
Definition item_nod2 : Item :=
  {[ "exp_type" := "mir_lrs-fixedslit"; "patt_num" := "2";
     "filename" := "jw_nod2_rate.fits" ]}.
Definition item_image : Item :=
  {[ "exp_type" := "mir_image"; "patt_num" := "1";
     "filename" := "jw_image_rate.fits" ]}.

(** The association of the nod rule after its first nod: the nod is a
    member and has bound [patt_num]; the first alternative of ANY has
    matched, and the node [force_match], in the second alternative, is
    still unbound. For a nod with another [patt_num] the first
    alternative fails, so that the second one is evaluated whether ANY
    evaluates every alternative or stops at the first that matches. *)
Definition nod_tree_after_first : Constraint :=
  Composite ALL
    [snd (evaluate item_nod1
            (Simple (attr_node "exp_type" (Some "mir_lrs\-fixedslit") false)));
     Composite ANY
       [snd (evaluate item_nod1
               (Composite ALL [Simple (attr_node "patt_num" None true)]));
        Composite ALL [Simple (force_match_node None false)]]].

Definition nod_association_after_first : Association ConstraintState :=
  {| data := append_member (make_member item_nod1)
               (dict_set "asn_type" (JStr "spec2") (new_data "Asn_Lv2Spec"));
     run_init_hook := false; meta := []; version_id := None;
     constraints := {| tree := nod_tree_after_first; history := [] |};
     accepted_items := {[item_nod1]} |}.


Definition document (expname : string) : Dict :=
  [("asn_type", JStr "spec2"); ("asn_rule", JStr "Asn_Lv2Spec");
   ("products",
    JList [JDict [("name", JStr "product");
                  ("members",
                   JList [JDict [("expname", JStr expname);
                                 ("exptype", JStr "science")]])]])].

Definition association_of (d : Dict) : Association ConstraintState :=
  {| data := d; run_init_hook := false; meta := []; version_id := None;
     constraints := {| tree := plain_tree; history := [] |};
     accepted_items := ∅ |}.

(** Two serialisation formats: the first reads what starts with a
    brace, the second what starts with a dash. The first reads the empty
    object as a document without products. *)
Definition starts_with (c : string) (s : string) : bool :=
  String.prefix c s.

Definition json_format : IOFormat ConstraintState :=
  {| io_load := fun serialized _ =>
       if starts_with "{" serialized
       then Ok (association_of
                  (if String.eqb serialized "{}" then new_data "Asn_Lv2Spec"
                   else document "jw_a_rate.fits"))
       else Raise (AssociationNotValidError "Container is not JSON");
     io_dump := fun _ _ => Ok ("asn.json", "{}") |}.

Definition yaml_format : IOFormat ConstraintState :=
  {| io_load := fun serialized _ =>
       if starts_with "-" serialized
       then Ok (association_of (document "jw_b_rate.fits"))
       else Raise (AssociationNotValidError "Container is not YAML");
     io_dump := fun _ _ => Ok ("asn.yaml", "---") |}.

Definition registry : list (string * IOFormat ConstraintState) :=
  [("json", json_format); ("yaml", yaml_format)].

Definition Asn_Lv2Spec : RuleClass ConstraintState :=
  rule_variant "Asn_Lv2Spec" "spec2" (Some "asn_schema.json") registry.

Definition conditions_of (name : string) (expected : option string)
    (unique : option bool) : Conditions :=
  {| inputs := fun item => default "" (item !! name);
     value := expected; found_values := ∅; force_unique := unique |}.

(** A rule without a schema. *)
Definition Asn_NoSchema : RuleClass ConstraintState :=
  rule_variant "Asn_NoSchema" "spec2" None registry.

(** A schema check that lets every document through. *)
Definition lenient_ext : Externals :=
  {| open_schema := fun _ => Ok JNull;
     jsonschema_validate := fun _ _ => Ok tt |}.

(** A format whose reader breaks on every input, and a rule with it
    between the two other formats. *)
Definition broken_format : IOFormat ConstraintState :=
  {| io_load := fun _ _ => Raise (OtherError "reader broke");
     io_dump := fun _ _ => Raise (OtherError "writer broke") |}.

Definition Asn_Broken : RuleClass ConstraintState :=
  rule_variant "Asn_Broken" "spec2" (Some "asn_schema.json")
    [("json", json_format); ("broken", broken_format); ("yaml", yaml_format)].

(** The constructor of [Asn_Lv2Spec]: the rule sets its constraints and
    goes on to [Association.__init__]. The rule has no global
    constraint, so that [Constraint()], [append] and [copy] are not
    called; an empty tree and the identity stand for them. *)
Definition new_Asn_Lv2Spec (version_id : option string)
  : Result (Association ConstraintState) :=
  Ok (__init__ "1.0" {| tree := Composite ALL []; history := [] |}
        (fun c _ => c) (fun c => c) Asn_Lv2Spec
        (Some {| tree := plain_tree; history := [] |}) None version_id).

(** An association with an id and one product. *)
Definition association_named (id name : string) : Association ConstraintState :=
  association_of
    [("asn_type", JStr "spec2"); ("asn_id", JStr id);
     ("products", JList [JDict [("name", JStr name); ("members", JList [])]])].

(** A direct image. *)
Definition direct (expname : string) : JVal :=
  JDict [("expname", JStr expname); ("exptype", JStr "direct_image")].

(** Whether a direct image is a long-wavelength one, and the id of an
    association, where they can be read. *)
Definition long_of (d : JVal) : bool :=
  match is_long d with
  | Ok b => b
  | Raise _ => false
  end.

Definition id_of (asn : Association ConstraintState) : string :=
  match asn_id asn with
  | Ok (JStr s) => s
  | _ => ""
  end.

(** A tree that asks for the item again when it does not match, and a
    rule with it. *)
Record Requesting := mkRequesting { inner : ConstraintState }.

Definition request (item : Item) : ProcessList :=
  {| items := [item]; work_over := BOTH; rules := None; trigger_rules := ∅ |}.

#[global] Instance Requesting_tree : ConstraintTree Requesting := {|
  preserve s := mkRequesting (preserve (inner s));
  restore s := mkRequesting (restore (inner s));
  check_and_set item s :=
    let r := check_and_set item (inner s) in
    ((fst (fst r), if fst (fst r) then [] else [request item]),
     mkRequesting (snd r));
  getitem_value key s := getitem_value key (inner s);
|}.

Definition Asn_Requesting : RuleClass Requesting :=
  {| rule_name := "Asn_Requesting";
     schema_file := None;
     ioregistry := [];
     is_item_member := fun item =>
       gets (fun self => bool_decide (item ∈ accepted_items self));
     _init_hook := fun _ => ret tt;
     _add := fun item =>
       modify (fun self =>
         set_accepted_items ({[item]} ∪ accepted_items self) self) |}.

Definition new_requesting : Association Requesting :=
  {| data := new_data "Asn_Requesting"; run_init_hook := true; meta := [];
     version_id := None;
     constraints := mkRequesting {| tree := plain_tree; history := [] |};
     accepted_items := ∅ |}.

End Examples.

(** * Properties *)

(** ** [re.escape] and literal patterns *)

Lemma not_special_plain (c : ascii) :
  is_special c = false -> Ascii.eqb c backslash = false /\ Ascii.eqb c bar = false.
Proof.
  intros Hc. split.
  - destruct (Ascii.eqb_spec c backslash) as [-> | _]; [| reflexivity].
    vm_compute in Hc. discriminate.
  - destruct (Ascii.eqb_spec c bar) as [-> | _]; [| reflexivity].
    vm_compute in Hc. discriminate.
Qed.

(** An escaped string is a pattern with one alternative, the string. *)
Lemma alternatives_re_escape (s : string) : alternatives (re_escape s) = [s].
Proof.
  induction s as [| c s IH]; [reflexivity |].
  cbn [re_escape]. destruct (is_special c) eqn:Hc.
  - cbn [alternatives]. rewrite Ascii.eqb_refl, IH. reflexivity.
  - destruct (not_special_plain c Hc) as [Hb Hbar].
    cbn [alternatives]. rewrite Hb, Hbar, IH. reflexivity.
Qed.

Lemma meets_conditions_spec_literal (v w : string) :
  meets_conditions_spec v (re_escape w) = true -> v = w.
Proof.
  unfold meets_conditions_spec. rewrite alternatives_re_escape. cbn.
  rewrite orb_false_r. apply String.eqb_eq.
Qed.

(** ** Matching one constraint *)

Section MatchConstraintFacts.

Variable meets_conditions : string -> string -> bool.

(** Claim C2, as the code has it: an unbound constraint matches every
    item, records the escaped value in [found_values] and binds its
    expected value to it, whether [force_unique] is set or not; after
    the match [force_unique] is false. *)
Theorem match_constraint_unbound (item : Item) (c : Conditions) :
  value c = None ->
  match_constraint meets_conditions item c =
    ((true, []),
     {| inputs := inputs c;
        value := Some (re_escape (inputs c item));
        found_values := {[re_escape (inputs c item)]} ∪ found_values c;
        force_unique := Some false |}).
Proof.
  intros Hv. unfold match_constraint. rewrite Hv. cbn.
  rewrite bool_decide_eq_true_2 by exact Hv. reflexivity.
Qed.





End MatchConstraintFacts.

(** C2, against the claim: with [force_unique] false an unbound constraint
    is bound all the same, and an item with another value then fails. *)
Lemma unbound_without_force_unique_binds :
  let c := Examples.conditions_of "exp_type" None (Some false) in
  let r := match_constraint meets_conditions_spec Examples.item_nod1 c in
  fst r = (true, []) /\
  value (snd r) = Some "mir_lrs\-fixedslit" /\
  value (snd r) <> None /\
  fst (match_constraint meets_conditions_spec Examples.item_image (snd r))
    = (false, []).
Proof. vm_compute. repeat split; discriminate. Qed.

Lemma match_constraint_unbound_witness :
  value (snd (match_constraint meets_conditions_spec Examples.item_nod1
                (Examples.conditions_of "patt_num" None None)))
  = Some "1".
Proof.
  rewrite (match_constraint_unbound meets_conditions_spec Examples.item_nod1
             (Examples.conditions_of "patt_num" None None) eq_refl).
  reflexivity.
Defined.



(** ** Adding an item *)

(** The spec-modelled tree is transactional: [restore] after [preserve]
    and an evaluation gives back the state before [preserve]. *)
Lemma Constraint_tree_transactional (item : Item) (s : ConstraintState) :
  restore (snd (check_and_set item (preserve s))) = s.
Proof. destruct s. reflexivity. Qed.

Lemma set_constraints_same {C} (a : Association C) :
  set_constraints (constraints a) a = a.
Proof. destruct a. reflexivity. Qed.

Section AddFacts.

Context {C : Type} `{!ConstraintTree C}.
Variable cls : RuleClass C.

Ltac run :=
  unfold bind, ret, get, gets, modify, raise, of_result, try_except; cbn.

(** [check_and_set_constraints], run: the tree is preserved, evaluated
    and, on a failure, restored. *)
Lemma check_and_set_constraints_run (item : Item) (a : Association C) :
  check_and_set_constraints cls item a =
    let r := check_and_set item (preserve (constraints a)) in
    (Ok (fst (fst r), map (set_trigger (rule_name cls)) (snd (fst r))),
     set_constraints (if fst (fst r) then snd r else restore (snd r)) a).
Proof.
  unfold check_and_set_constraints. run.
  destruct (check_and_set item (preserve (constraints a))) as [[m rp] c'].
  destruct m; reflexivity.
Qed.

(** [add] on an item that is not a member, with the constraints
    checked: the steps of the method, one after the other. *)
Lemma add_checked_run (item : Item) (a a0 : Association C) :
  is_item_member cls item a = (Ok false, a0) ->
  add cls item true a =
    let r := check_and_set item (preserve (constraints a0)) in
    let matched := fst (fst r) in
    let a1 := set_constraints (if matched then snd r else restore (snd r)) a0 in
    let merged : Result unit * Association C :=
      if matched then
        ((if run_init_hook a1 then
            _init_hook cls item;; modify (set_run_init_hook false)
          else ret tt);;
         _add cls item) a1
      else (Ok tt, a1) in
    match merged with
    | (Raise e, a2) => (Raise e, a2)
    | (Ok _, a2) =>
        match getitem_value "force_match" (constraints a2) with
        | Ok (Some fm) =>
            (Ok (fm, map (set_trigger (rule_name cls)) (snd (fst r))), a2)
        | Ok None | Raise (KeyError _) | Raise TypeError =>
            (Ok (VBool matched, map (set_trigger (rule_name cls)) (snd (fst r))), a2)
        | Raise e => (Raise e, a2)
        end
    end.
Proof.
  intros Hm. unfold add. unfold bind at 1. rewrite Hm.
  unfold bind at 1. unfold bind at 1.
  rewrite check_and_set_constraints_run.
  destruct (check_and_set item (preserve (constraints a0))) as [[m rp] c'].
  cbn [fst snd]. destruct m.
  - run.
    destruct (run_init_hook a0).
    + destruct (_init_hook cls item (set_constraints c' a0)) as [[[] | e] a2];
        [| reflexivity].
      destruct (_add cls item (set_run_init_hook false a2)) as [[[] | e] a3];
        [| reflexivity].
      destruct (getitem_value "force_match" (constraints a3)) as [[fm |] | e];
        try reflexivity.
      destruct e; reflexivity.
    + destruct (_add cls item (set_constraints c' a0)) as [[[] | e] a3];
        [| reflexivity].
      destruct (getitem_value "force_match" (constraints a3)) as [[fm |] | e];
        try reflexivity.
      destruct e; reflexivity.
  - run.
    destruct (getitem_value "force_match" (restore c')) as [[fm |] | e];
      try reflexivity.
    destruct e; reflexivity.
Qed.

End AddFacts.

Section AddClaims.

Context {C : Type} `{!ConstraintTree C}.
Variable cls : RuleClass C.

(** [add] on an item that is not a member, with the constraints not
    checked: the item is merged and the return reads [reprocess],
    which was never bound. *)
Lemma add_unchecked_run (item : Item) (a a0 : Association C) :
  is_item_member cls item a = (Ok false, a0) ->
  add cls item false a =
    match ((if run_init_hook a0 then
              _init_hook cls item;; modify (set_run_init_hook false)
            else ret tt);;
           _add cls item) a0 with
    | (Raise e, a2) => (Raise e, a2)
    | (Ok _, a2) =>
        match getitem_value "force_match" (constraints a2) with
        | Ok _ | Raise (KeyError _) | Raise TypeError =>
            (Raise (UnboundLocalError "reprocess"), a2)
        | Raise e => (Raise e, a2)
        end
    end.
Proof.
  intros Hm. unfold add. unfold bind at 1. rewrite Hm.
  unfold bind, ret, get, gets, modify, raise, of_result, try_except; cbn.
  destruct (run_init_hook a0).
  - destruct (_init_hook cls item a0) as [[[] | e] a2]; [| reflexivity].
    destruct (_add cls item (set_run_init_hook false a2)) as [[[] | e] a3];
      [| reflexivity].
    destruct (getitem_value "force_match" (constraints a3)) as [[fm |] | e];
      try reflexivity.
    destruct e; reflexivity.
  - destruct (_add cls item a0) as [[[] | e] a3]; [| reflexivity].
    destruct (getitem_value "force_match" (constraints a3)) as [[fm |] | e];
      try reflexivity.
    destruct e; reflexivity.
Qed.

(** Claim C10: with [check_constraints = False], [add] on an item that
    is not yet a member never returns: it raises; and when the hooks
    have run through and the lookup of [force_match] found a node or
    none, what it raises is the unbound local [reprocess]. *)
Theorem add_unchecked_raises (item : Item) (a a0 : Association C) :
  is_item_member cls item a = (Ok false, a0) ->
  (exists e a', add cls item false a = (Raise e, a')) /\
  (forall a2,
     ((if run_init_hook a0 then
         _init_hook cls item;; modify (set_run_init_hook false)
       else ret tt);;
      _add cls item) a0 = (Ok tt, a2) ->
     (exists fm, getitem_value "force_match" (constraints a2) = Ok fm) \/
     (exists k, getitem_value "force_match" (constraints a2) = Raise (KeyError k)) ->
     add cls item false a = (Raise (UnboundLocalError "reprocess"), a2)).
Proof.
  intros Hm. rewrite (add_unchecked_run item a a0 Hm). split.
  - destruct ((_ ;; _add cls item) a0) as [[[] | e] a2]; [| eauto].
    destruct (getitem_value "force_match" (constraints a2)) as [fm | e];
      [eauto |].
    destruct e; eauto.
  - intros a2 -> [[fm ->] | [k ->]]; reflexivity.
Qed.

(** What a returning checked [add] on a non-member went through. *)
Lemma add_checked_inv (item : Item) (a a0 a' : Association C)
    (m : Value) (r : list ProcessList) :
  is_item_member cls item a = (Ok false, a0) ->
  add cls item true a = (Ok (m, r), a') ->
  let r0 := check_and_set item (preserve (constraints a0)) in
  let matched := fst (fst r0) in
  (if matched
   then exists ax, _add cls item ax = (Ok tt, a')
   else a' = set_constraints (restore (snd r0)) a0) /\
  m = match getitem_value "force_match" (constraints a') with
      | Ok (Some fm) => fm
      | _ => VBool matched
      end.
Proof.
  intros Hm Hadd. rewrite (add_checked_run cls item a a0 Hm) in Hadd.
  cbn zeta in *.
  destruct (fst (fst (check_and_set item (preserve (constraints a0))))).
  - destruct ((_ ;; _add cls item) _) as [[[] | e] a2] eqn:Hmerged in Hadd;
      [| discriminate].
    assert (Hlast : exists ax, _add cls item ax = (Ok tt, a2)).
    { unfold bind at 1 in Hmerged.
      match type of Hmerged with
      | (let (_, _) := ?first in _) = _ =>
          destruct first as [[[] | e] ax]; [eauto | discriminate]
      end. }
    destruct (getitem_value "force_match" (constraints a2))
      as [[fm |] | e] eqn:Hg.
    + injection Hadd as <- _ <-. rewrite Hg. auto.
    + injection Hadd as <- _ <-. rewrite Hg. auto.
    + destruct e; try discriminate; injection Hadd as <- _ <-;
        rewrite Hg; auto.
  - destruct (getitem_value "force_match" (constraints _))
      as [[fm |] | e] eqn:Hg in Hadd.
    + injection Hadd as <- _ <-. rewrite Hg. auto.
    + injection Hadd as <- _ <-. rewrite Hg. auto.
    + destruct e; try discriminate; injection Hadd as <- _ <-;
        rewrite Hg; auto.
Qed.

(** Claim C3: when the tree has been evaluated and the node
    [force_match] holds a value afterwards, that value is what [add]
    returns, whatever the tree itself said. *)
Theorem add_force_match_overrides (item : Item) (chk : bool)
    (a a0 a' : Association C) (m v : Value) (r : list ProcessList) :
  is_item_member cls item a = (Ok false, a0) ->
  add cls item chk a = (Ok (m, r), a') ->
  getitem_value "force_match" (constraints a') = Ok (Some v) ->
  m = v.
Proof.
  intros Hm Hadd Hfm. destruct chk.
  - destruct (add_checked_inv item a a0 a' m r Hm Hadd) as [_ ->].
    rewrite Hfm. reflexivity.
  - destruct (proj1 (add_unchecked_raises item a a0 Hm)) as (e & a'' & He).
    congruence.
Qed.

(** The state-restoring law of the constraint tree: [restore] undoes
    [preserve] followed by an evaluation. *)
Hypothesis restore_preserve :
  forall item c, restore (snd (check_and_set item (preserve c))) = c.

(** When the tree does not match, [add] leaves the object as it was. *)
Lemma add_mismatch_state (item : Item) (a : Association C) :
  is_item_member cls item a = (Ok false, a) ->
  fst (fst (check_and_set item (preserve (constraints a)))) = false ->
  snd (add cls item true a) = a.
Proof.
  intros Hm Hf. rewrite (add_checked_run cls item a a Hm). cbn zeta.
  rewrite Hf, restore_preserve, set_constraints_same.
  destruct (getitem_value "force_match" (constraints a)) as [[fm |] | e];
    try reflexivity.
  destruct e; reflexivity.
Qed.

(** A returning checked [add] whose tree matched: the hooks ran on the
    association holding the evaluated tree, and left the state that
    [add] ends in. *)
Lemma add_checked_merged (item : Item) (a a0 a' : Association C)
    (m : Value) (r : list ProcessList) :
  is_item_member cls item a = (Ok false, a0) ->
  add cls item true a = (Ok (m, r), a') ->
  fst (fst (check_and_set item (preserve (constraints a0)))) = true ->
  ((if run_init_hook a0 then
      _init_hook cls item;; modify (set_run_init_hook false)
    else ret tt);;
   _add cls item)
    (set_constraints (snd (check_and_set item (preserve (constraints a0)))) a0)
  = (Ok tt, a').
Proof.
  intros Hm Hadd Hmatched. rewrite (add_checked_run cls item a a0 Hm) in Hadd.
  cbv zeta in Hadd. rewrite Hmatched in Hadd.
  cbn [run_init_hook set_constraints] in Hadd.
  destruct ((_ ;; _add cls item) _) as [[[] | e] a2]; [| discriminate].
  destruct (getitem_value "force_match" (constraints a2)) as [[fm |] | e];
    try (injection Hadd as _ _ <-; reflexivity).
  destruct e; try discriminate; injection Hadd as _ _ <-; reflexivity.
Qed.

(** Claim C1, as the code has it: an item whose tree evaluation fails
    leaves the association as it was; and whenever [add] returns a
    false value, either the association is as it was, or the tree had
    matched, the item has been merged into the association that holds
    the evaluated tree, its bindings kept, and the false value is that
    of the node [force_match]. *)
Theorem add_rejected_state (item : Item) (a : Association C) :
  is_item_member cls item a = (Ok false, a) ->
  let r0 := check_and_set item (preserve (constraints a)) in
  let matched := fst (fst r0) in
  (matched = false -> snd (add cls item true a) = a) /\
  (forall m r a',
     add cls item true a = (Ok (m, r), a') -> truthy m = false ->
     a' = a \/
     (matched = true /\
      ((if run_init_hook a then
          _init_hook cls item;; modify (set_run_init_hook false)
        else ret tt);;
       _add cls item) (set_constraints (snd r0) a) = (Ok tt, a') /\
      getitem_value "force_match" (constraints a') = Ok (Some m))).
Proof.
  intros Hm r0 matched. split; [apply add_mismatch_state; exact Hm |].
  intros m r a' Hadd Hfalse.
  destruct matched eqn:Hmatched; subst matched r0.
  - right. split; [reflexivity |].
    split; [exact (add_checked_merged item a a a' m r Hm Hadd Hmatched) |].
    destruct (add_checked_inv item a a a' m r Hm Hadd) as [_ Hret].
    cbn zeta in Hret. rewrite Hmatched in Hret.
    destruct (getitem_value "force_match" (constraints a')) as [[fm |] | e];
      subst m; (reflexivity || discriminate).
  - left. pose proof (add_mismatch_state item a Hm Hmatched) as Hs.
    rewrite Hadd in Hs. exact Hs.
Qed.

(** Claim C4: an item that is a member is answered [(True, [])] with
    nothing evaluated and nothing changed; and after an [add] that
    returned, the same [add] again returns and changes nothing. The
    membership test is taken to be a query, and [_add] to make the item
    a member. *)
Theorem add_idempotent (item : Item) :
  (forall a0, exists b, is_item_member cls item a0 = (Ok b, a0)) ->
  (forall a0 a1, _add cls item a0 = (Ok tt, a1) ->
                 is_item_member cls item a1 = (Ok true, a1)) ->
  (forall a chk, is_item_member cls item a = (Ok true, a) ->
                 add cls item chk a = (Ok (VBool true, []), a)) /\
  (forall a chk mr a1,
     add cls item chk a = (Ok mr, a1) ->
     exists mr', add cls item chk a1 = (Ok mr', a1)).
Proof.
  intros Hpure Hadded.
  assert (Hmember : forall a chk, is_item_member cls item a = (Ok true, a) ->
                                  add cls item chk a = (Ok (VBool true, []), a)).
  { intros a chk Hm. unfold add. unfold bind at 1. rewrite Hm. reflexivity. }
  split; [exact Hmember |].
  intros a chk mr a1 Hadd.
  destruct (Hpure a) as [[|] Hm].
  - rewrite (Hmember a chk Hm) in Hadd. injection Hadd as <- <-.
    eexists. apply Hmember. exact Hm.
  - destruct chk.
    + destruct (fst (fst (check_and_set item (preserve (constraints a)))))
        eqn:Hmatched.
      * destruct mr as [m r].
        destruct (add_checked_inv item a a a1 m r Hm Hadd) as [Hlast _].
        cbn zeta in Hlast. rewrite Hmatched in Hlast.
        destruct Hlast as [ax Hax].
        eexists. apply Hmember. eapply Hadded. exact Hax.
      * pose proof (add_mismatch_state item a Hm Hmatched) as Hs.
        rewrite Hadd in Hs. cbn in Hs. subst a1. eauto.
    + destruct (proj1 (add_unchecked_raises item a a Hm)) as (e & a'' & He).
      congruence.
Qed.

End AddClaims.

(** ** Validation *)

(** A file reference has a directory part when its path is rooted or has
    two components or more. *)
Lemma has_directory_spec (s : string) :
  has_directory s = true <->
  root (Path s) <> "" \/ 2 <= List.length (tail (Path s)).
Proof.
  unfold has_directory. rewrite bool_decide_eq_true.
  unfold parent, Path_cwd. destruct (Path s) as [r t]. cbn.
  destruct t as [| x [| y t]]; cbn.
  - split.
    + intros Hne. left. intros ->. apply Hne. reflexivity.
    + intros [Hr | Hl] [= ->]; [congruence | lia].
  - split.
    + intros Hne. left. intros ->. apply Hne. reflexivity.
    + intros [Hr | Hl] [= ->]; [congruence | lia].
  - split.
    + intros _. right. lia.
    + intros _ [=].
Qed.

Section ValidationFacts.

Context {C : Type} `{!ConstraintTree C}.
Variable ext : Externals.
Variable cls : RuleClass C.

Lemma check_expname_sound (member : JVal) (s : string) (log : list Warning) :
  member_expname member = Some s ->
  check_expname member log =
    (Ok tt, log ++ map (fun _ => UserWarning path_warning)
                       (List.filter has_directory [s]))%list.
Proof.
  unfold member_expname, check_expname, bind, of_result.
  destruct (subscript member "expname") as [[| | s' | |] | e]; try discriminate.
  intros [= ->]. cbn. unfold has_directory.
  destruct (bool_decide (parent (Path s) <> Path_cwd)); cbn.
  - reflexivity.
  - rewrite app_nil_r. reflexivity.
Qed.

Lemma for_each_check_expname (ms : list JVal) :
  forallb (fun m => bool_decide (is_Some (member_expname m))) ms = true ->
  forall log,
    for_each ms check_expname log =
      (Ok tt, log ++ map (fun _ => UserWarning path_warning)
                         (List.filter has_directory (omap member_expname ms)))%list.
Proof.
  induction ms as [| m ms IH]; intros Hs log; cbn.
  - rewrite app_nil_r. reflexivity.
  - cbn in Hs. apply andb_prop in Hs as [Hm Hms].
    apply bool_decide_eq_true in Hm as [s Hm].
    unfold bind. rewrite (check_expname_sound m s log Hm), Hm.
    rewrite (IH Hms). cbn.
    destruct (has_directory s); cbn.
    + rewrite <- app_assoc. reflexivity.
    + rewrite app_nil_r. reflexivity.
Qed.

Lemma check_members_sound (product : JVal) (log : list Warning) :
  sound_product product = true ->
  check_members product log =
    (Ok tt, log ++ map (fun _ => UserWarning path_warning)
                       (List.filter has_directory (product_expnames product)))%list.
Proof.
  unfold sound_product, product_expnames, product_members, check_members.
  unfold bind at 1. unfold of_result at 1.
  destruct (subscript product "members") as [[| | | ms |] | e]; try discriminate.
  intros Hs. cbn. apply for_each_check_expname. exact Hs.
Qed.

Lemma for_each_check_members (ps : list JVal) :
  forallb sound_product ps = true ->
  forall log,
    for_each ps check_members log =
      (Ok tt, log ++ map (fun _ => UserWarning path_warning)
                         (List.filter has_directory
                            (List.concat (map product_expnames ps))))%list.
Proof.
  induction ps as [| p ps IH]; intros Hs log; cbn.
  - rewrite app_nil_r. reflexivity.
  - cbn in Hs. apply andb_prop in Hs as [Hp Hps].
    unfold bind. rewrite (check_members_sound p log Hp), (IH Hps).
    rewrite List.filter_app, map_app, app_assoc. reflexivity.
Qed.

(** On a sound document that passes the schema, [validate] returns
    [True] and issues the path warnings, nothing else. *)
Lemma validate_sound (d : Dict) (file : string) (schema : JVal)
    (log : list Warning) :
  schema_file cls = Some file ->
  open_schema ext file = Ok schema ->
  jsonschema_validate ext d schema = Ok tt ->
  sound_document d = true ->
  validate ext cls d log = (Ok true, log ++ path_warnings d)%list.
Proof.
  intros Hf Ho Hv Hs. unfold validate. rewrite Hf.
  unfold bind at 1. unfold of_result at 1. rewrite Ho.
  unfold bind at 1. unfold try_except, of_result at 1. rewrite Hv.
  unfold sound_document, document_products in Hs.
  unfold path_warnings, expnames, document_products.
  unfold bind at 1. unfold of_result at 1. cbn [subscript].
  destruct (dict_get "products" d) as [[| | | ps |] |]; try discriminate.
  cbn. unfold bind at 1. rewrite (for_each_check_members ps Hs). reflexivity.
Qed.

(** A document that fails the schema is not valid. *)
Lemma validate_invalid (d : Dict) (file : string) (schema : JVal)
    (e : exn) (log : list Warning) :
  schema_file cls = Some file ->
  open_schema ext file = Ok schema ->
  jsonschema_validate ext d schema = Raise e ->
  e = ValidationError \/ e = AttributeError ->
  validate ext cls d log = (Raise (AssociationNotValidError "Validation failed"), log).
Proof.
  intros Hf Ho Hv He. unfold validate. rewrite Hf.
  unfold bind at 1. unfold of_result at 1. rewrite Ho.
  unfold bind at 1. unfold try_except, of_result at 1. rewrite Hv.
  destruct He as [-> | ->]; reflexivity.
Qed.

(** [is_valid] is [validate] with the not-valid error turned into
    [False]. *)
Lemma is_valid_of_validate (self : Association C) (log : list Warning) :
  is_valid ext cls self log =
    match validate ext cls (data self) log with
    | (Ok _, log') => (Ok true, log')
    | (Raise (AssociationNotValidError _), log') => (Ok false, log')
    | (Raise e, log') => (Raise e, log')
    end.
Proof.
  unfold is_valid, try_except, bind, ret.
  destruct (validate ext cls (data self) log) as [[b | e] log'];
    [reflexivity |].
  destruct e; reflexivity.
Qed.

End ValidationFacts.

Section ValidationClaims.

Context {C : Type} `{!ConstraintTree C}.
Variable ext : Externals.
Variable cls : RuleClass C.

(** Claim C9: a sound document that passes the schema and has a member
    whose [expname] has a directory part validates: [validate] returns
    [True], [is_valid] is true, and the path warning is among the
    warnings issued. *)
Theorem validate_path_warning (self : Association C) (file : string)
    (schema : JVal) (log : list Warning) :
  schema_file cls = Some file ->
  open_schema ext file = Ok schema ->
  jsonschema_validate ext (data self) schema = Ok tt ->
  sound_document (data self) = true ->
  (exists s, In s (expnames (data self)) /\ has_directory s = true) ->
  validate ext cls (data self) log
    = (Ok true, log ++ path_warnings (data self))%list /\
  is_valid ext cls self log
    = (Ok true, log ++ path_warnings (data self))%list /\
  In (UserWarning path_warning) (path_warnings (data self)).
Proof.
  intros Hf Ho Hv Hs (s & Hin & Hdir).
  pose proof (validate_sound ext cls (data self) file schema log Hf Ho Hv Hs)
    as Hval.
  split; [exact Hval |]. split.
  - rewrite is_valid_of_validate, Hval. reflexivity.
  - unfold path_warnings. apply in_map_iff. exists s. split; [reflexivity |].
    apply List.filter_In. auto.
Qed.

(** Claim C6, as the code has it: [finalize] returns the one-element
    list [[self]] when the association validates and [None] when
    validation fails with the not-valid error; that error never leaves
    [finalize]. *)
Theorem finalize_result (self : Association C) (log : list Warning) :
  (forall b log', validate ext cls (data self) log = (Ok b, log') ->
                  finalize ext cls self log = (Ok (RList [self]), log')) /\
  (forall msg log',
     validate ext cls (data self) log
       = (Raise (AssociationNotValidError msg), log') ->
     finalize ext cls self log = (Ok RNone, log')) /\
  (forall msg log',
     finalize ext cls self log <> (Raise (AssociationNotValidError msg), log')).
Proof.
  unfold finalize, bind. rewrite is_valid_of_validate.
  destruct (validate ext cls (data self) log) as [[b | e] log0].
  - split; [| split].
    + intros b' log' [= _ <-]. reflexivity.
    + intros msg log' [=].
    + intros msg log'. cbn. discriminate.
  - split; [| split].
    + intros b' log' [=].
    + intros msg log' [= -> <-]. reflexivity.
    + intros msg log'. destruct e; cbn; discriminate.
Qed.

(** Claim C8: [dump] hands the association to the serialiser
    registered under the format when the association validates, and
    raises the not-valid error when it does not. *)
Theorem dump_requires_valid (self : Association C) (fmt : option Value)
    (kwargs : Kwargs) (log : list Warning) :
  let fmt' := match fmt with
              | Some f => f
              | None => default (VStr "json") (kwargs !! "format")
              end in
  let kwargs' := match fmt with
                 | Some _ => kwargs
                 | None => delete "format" kwargs
                 end in
  (forall b log', validate ext cls (data self) log = (Ok b, log') ->
     dump ext cls self fmt kwargs log =
       (match registry_getitem (ioregistry cls) fmt' with
        | Ok io => io_dump io self kwargs'
        | Raise e => Raise e
        end, log')) /\
  (forall msg log',
     validate ext cls (data self) log
       = (Raise (AssociationNotValidError msg), log') ->
     dump ext cls self fmt kwargs log =
       (Raise (AssociationNotValidError "Association is not valid"), log')).
Proof.
  intros fmt' kwargs'. unfold dump, bind. rewrite is_valid_of_validate.
  split.
  - intros b log' ->. unfold of_result. subst fmt' kwargs'.
    destruct fmt; cbn [fst snd];
      destruct (registry_getitem (ioregistry cls) _); reflexivity.
  - intros msg log' ->. reflexivity.
Qed.

(** A run of formats that all refuse is skipped. *)
Lemma try_formats_skip (pre rest : list (IOFormat C)) (serialized : string)
    (kwargs : Kwargs) :
  Forall (fun g => exists msg,
            io_load g serialized kwargs = Raise (AssociationNotValidError msg))
         pre ->
  try_formats (pre ++ rest) serialized kwargs = try_formats rest serialized kwargs.
Proof.
  induction 1 as [| g pre [msg Hg] _ IH]; [reflexivity |].
  cbn. rewrite Hg. exact IH.
Qed.

(** Claim C7, as the code has it: without a format [load] takes the
    registered formats in order and goes on with the result of the
    first that does not refuse; when all refuse it raises the not-valid
    error; with a format, only that format is tried. In each case the
    result is validated before it is returned when [validate] is set,
    and a failed validation is raised. *)
Theorem load_tries_formats (serialized : string) (validate_ : bool)
    (kwargs : Kwargs) (log : list Warning) :
  let finish (asn : Association C) : M (list Warning) (Association C) :=
    (if validate_ then validate ext cls (data asn);; ret tt else ret tt);;
    ret asn in
  (forall pre f post asn,
     kwargs !! "format" = None ->
     map snd (ioregistry cls) = (pre ++ f :: post)%list ->
     Forall (fun g => exists msg,
               io_load g serialized kwargs = Raise (AssociationNotValidError msg))
            pre ->
     io_load f serialized kwargs = Ok asn ->
     load ext cls serialized None validate_ kwargs log = finish asn log) /\
  (kwargs !! "format" = None ->
   Forall (fun g => exists msg,
             io_load g serialized kwargs = Raise (AssociationNotValidError msg))
          (map snd (ioregistry cls)) ->
   load ext cls serialized None validate_ kwargs log =
     (Raise (AssociationNotValidError "Cannot translate to an association"), log)) /\
  (forall k f,
     registry_getitem (ioregistry cls) k = Ok f ->
     load ext cls serialized (Some k) validate_ kwargs log =
       match io_load f serialized kwargs with
       | Ok asn => finish asn log
       | Raise (AssociationNotValidError _) =>
           (Raise (AssociationNotValidError "Cannot translate to an association"),
            log)
       | Raise e => (Raise e, log)
       end).
Proof.
  intros finish. repeat split.
  - intros pre f post asn Hk Hreg Hpre Hf.
    unfold load. cbn [fst snd]. rewrite Hk, (delete_id _ _ Hk).
    unfold bind at 1. unfold ret at 1. unfold bind at 1. unfold of_result.
    rewrite Hreg, (try_formats_skip pre (f :: post) _ _ Hpre).
    cbn [try_formats]. rewrite Hf. reflexivity.
  - intros Hk Hall.
    unfold load. cbn [fst snd]. rewrite Hk, (delete_id _ _ Hk).
    unfold bind at 1. unfold ret at 1. unfold bind at 1. unfold of_result.
    rewrite <- (app_nil_r (map snd (ioregistry cls))).
    rewrite (try_formats_skip _ [] _ _ Hall). reflexivity.
  - intros k f Hreg.
    unfold load. cbn [fst snd].
    unfold bind at 1. unfold bind at 1. unfold of_result at 1. rewrite Hreg.
    unfold ret at 1. unfold bind at 1. unfold of_result. cbn [try_formats].
    destruct (io_load f serialized kwargs) as [asn | e]; [reflexivity |].
    destruct e; reflexivity.
Qed.

End ValidationClaims.

(** ** The rule variant of the description *)

Lemma rule_variant_member_query (name : RuleId) (asn_type : string)
    (schema : option string) (reg : list (string * IOFormat ConstraintState))
    (item : Item) (a0 : Association ConstraintState) :
  exists b, is_item_member (rule_variant name asn_type schema reg) item a0 = (Ok b, a0).
Proof. eexists. reflexivity. Qed.

Lemma rule_variant_add_member (name : RuleId) (asn_type : string)
    (schema : option string) (reg : list (string * IOFormat ConstraintState))
    (item : Item) (a0 a1 : Association ConstraintState) :
  _add (rule_variant name asn_type schema reg) item a0 = (Ok tt, a1) ->
  is_item_member (rule_variant name asn_type schema reg) item a1 = (Ok true, a1).
Proof.
  cbn. unfold modify, gets. intros [= <-]. cbn.
  rewrite bool_decide_eq_true_2 by set_solver. reflexivity.
Qed.

(** ** The claims on examples *)

Module Runs.
Import Examples.

(** C1, against the claim: the second nod, offered to the association
    that holds the first, matches the tree and is merged; the node
    [force_match], unbound before, gets the value [False], and [add]
    returns [False] on an association that has changed. *)
Lemma add_force_match_rejection_mutates :
  let a1 := nod_association_after_first in
  let res := add Asn_Lv2Spec item_nod2 true a1 in
  is_item_member Asn_Lv2Spec item_nod2 a1 = (Ok false, a1) /\
  fst res = Ok (VBool false, []) /\
  snd res <> a1 /\
  expnames (data a1) = ["jw_nod1_rate.fits"] /\
  expnames (data (snd res)) = ["jw_nod1_rate.fits"; "jw_nod2_rate.fits"] /\
  getitem_value "patt_num" (constraints a1) = Ok (Some (VStr "1")) /\
  getitem_value "force_match" (constraints a1) = Ok None /\
  getitem_value "force_match" (constraints (snd res)) = Ok (Some (VBool false)).
Proof.
  cbv zeta.
  assert (Hbefore : expnames (data nod_association_after_first)
                    = ["jw_nod1_rate.fits"]) by (vm_compute; reflexivity).
  assert (Hafter : expnames (data (snd (add Asn_Lv2Spec item_nod2 true
                                          nod_association_after_first)))
                   = ["jw_nod1_rate.fits"; "jw_nod2_rate.fits"])
    by (vm_compute; reflexivity).
  split.
  { change (is_item_member Asn_Lv2Spec item_nod2 nod_association_after_first)
      with (Ok (bool_decide
                  (item_nod2 ∈ accepted_items nod_association_after_first)),
            nod_association_after_first).
    do 2 f_equal; vm_compute; reflexivity. }
  split; [vm_compute; reflexivity |]. split.
  - intros H.
    pose proof (eq_trans (eq_sym Hafter)
                  (eq_trans (f_equal (fun a => expnames (data a)) H) Hbefore))
      as E.
    discriminate E.
  - split; [exact Hbefore |]. split; [exact Hafter |].
    repeat split; vm_compute; reflexivity.
Qed.

Lemma add_rejected_state_witness :
  let a0 := new_association "Asn_Lv2Spec" plain_tree in
  is_item_member Asn_Lv2Spec item_image a0 = (Ok false, a0) /\
  snd (add Asn_Lv2Spec item_image true a0) = a0.
Proof.
  cbv zeta. split; [reflexivity |].
  exact (proj1 (add_rejected_state Asn_Lv2Spec Constraint_tree_transactional
                  item_image (new_association "Asn_Lv2Spec" plain_tree) eq_refl)
               eq_refl).
Defined.

(** C3 in both directions: a matching item turned down, and an item
    that does not match let through. *)
Lemma add_force_match_overrides_witness :
  let a0 := new_association "Asn_Lv2Spec" (nod_tree None false) in
  let a1 := snd (add Asn_Lv2Spec item_nod1 true a0) in
  is_item_member Asn_Lv2Spec item_nod1 a0 = (Ok false, a0) /\
  add Asn_Lv2Spec item_nod1 true a0 = (Ok (VBool false, []), a1) /\
  getitem_value "force_match" (constraints a1) = Ok (Some (VBool false)) /\
  VBool false = VBool false.
Proof.
  cbv zeta. split; [reflexivity |]. split; [reflexivity |].
  split; [reflexivity |].
  apply (add_force_match_overrides Asn_Lv2Spec item_nod1 true
           (new_association "Asn_Lv2Spec" (nod_tree None false))
           (new_association "Asn_Lv2Spec" (nod_tree None false))
           (snd (add Asn_Lv2Spec item_nod1 true
                   (new_association "Asn_Lv2Spec" (nod_tree None false))))
           (VBool false) (VBool false) []); reflexivity.
Defined.

Lemma add_force_match_accepts :
  let a0 := new_association "Asn_Lv2Spec" (nod_tree (Some (VBool true)) true) in
  let res := add Asn_Lv2Spec item_image true a0 in
  fst (fst (check_and_set item_image (preserve (constraints a0)))) = false /\
  fst res = Ok (VBool true, []) /\
  expnames (data (snd res)) = [].
Proof. cbv zeta. repeat split; vm_compute; reflexivity. Qed.

Lemma add_idempotent_witness :
  let a0 := new_association "Asn_Lv2Spec" plain_tree in
  let a1 := snd (add Asn_Lv2Spec item_nod1 true a0) in
  exists mr, add Asn_Lv2Spec item_nod1 true a1 = (Ok mr, a1).
Proof.
  cbv zeta.
  exact (proj2 (add_idempotent Asn_Lv2Spec Constraint_tree_transactional
                  item_nod1
                  (rule_variant_member_query _ _ _ _ item_nod1)
                  (rule_variant_add_member _ _ _ _ item_nod1))
               (new_association "Asn_Lv2Spec" plain_tree) true
               (VBool true, []) _ eq_refl).
Defined.

Lemma add_unchecked_raises_witness :
  let a0 := new_association "Asn_Lv2Spec" plain_tree in
  is_item_member Asn_Lv2Spec item_nod1 a0 = (Ok false, a0) /\
  fst (add Asn_Lv2Spec item_nod1 false a0) = Raise (UnboundLocalError "reprocess").
Proof.
  cbv zeta. split; [reflexivity |].
  erewrite (proj2 (add_unchecked_raises Asn_Lv2Spec item_nod1
                     (new_association "Asn_Lv2Spec" plain_tree)
                     (new_association "Asn_Lv2Spec" plain_tree) eq_refl));
    [reflexivity | reflexivity | right; eexists; reflexivity].
Defined.

(** C6, against the claim: what [finalize] returns for a valid
    association is a list holding it, not the association. *)
Lemma finalize_returns_list :
  let self := association_of (document "jw_a_rate.fits") in
  fst (finalize ext Asn_Lv2Spec self []) = Ok (RList [self]) /\
  fst (finalize ext Asn_Lv2Spec self []) <> Ok (RObj self).
Proof. cbv zeta. split; [reflexivity | discriminate]. Qed.

Lemma finalize_result_witness :
  let self := association_of (document "jw_a_rate.fits") in
  let dropped := association_of (new_data "Asn_Lv2Spec") in
  finalize ext Asn_Lv2Spec self [] = (Ok (RList [self]), []) /\
  finalize ext Asn_Lv2Spec dropped [] = (Ok RNone, []).
Proof.
  cbv zeta. split.
  - exact (proj1 (finalize_result ext Asn_Lv2Spec
                    (association_of (document "jw_a_rate.fits")) [])
                 true [] eq_refl).
  - exact (proj1 (proj2 (finalize_result ext Asn_Lv2Spec
                           (association_of (new_data "Asn_Lv2Spec")) []))
                 "Validation failed" [] eq_refl).
Defined.

(** C7, against the claim: the first registered format reads the
    input, the document it gives does not pass the schema, and [load]
    raises instead of returning it. *)
Lemma load_first_parsed_not_returned :
  map fst (ioregistry Asn_Lv2Spec) = ["json"; "yaml"] /\
  io_load json_format "{}" ∅ = Ok (association_of (new_data "Asn_Lv2Spec")) /\
  fst (load ext Asn_Lv2Spec "{}" None true ∅ [])
    = Raise (AssociationNotValidError "Validation failed") /\
  fst (load ext Asn_Lv2Spec "{}" None true ∅ [])
    <> Ok (association_of (new_data "Asn_Lv2Spec")).
Proof. repeat split; try reflexivity. discriminate. Qed.

Lemma load_tries_formats_witness :
  map snd (ioregistry Asn_Lv2Spec) = [json_format; yaml_format] /\
  (exists msg, io_load json_format "---" ∅ = Raise (AssociationNotValidError msg)) /\
  fst (load ext Asn_Lv2Spec "---" None true ∅ [])
    = Ok (association_of (document "jw_b_rate.fits")).
Proof.
  split; [reflexivity |]. split; [eexists; reflexivity |].
  rewrite (proj1 (load_tries_formats ext Asn_Lv2Spec "---" true ∅ [])
             [json_format] yaml_format []
             (association_of (document "jw_b_rate.fits"))
             (lookup_empty "format") eq_refl
             ltac:(repeat constructor; eexists; reflexivity)
             eq_refl).
  reflexivity.
Defined.

Lemma dump_requires_valid_witness :
  let self := association_of (document "jw_a_rate.fits") in
  let dropped := association_of (new_data "Asn_Lv2Spec") in
  dump ext Asn_Lv2Spec self None ∅ [] = (Ok ("asn.json", "{}"), []) /\
  dump ext Asn_Lv2Spec dropped None ∅ []
    = (Raise (AssociationNotValidError "Association is not valid"), []).
Proof.
  cbv zeta. split.
  - rewrite (proj1 (dump_requires_valid ext Asn_Lv2Spec
                      (association_of (document "jw_a_rate.fits")) None ∅ [])
               true [] eq_refl).
    reflexivity.
  - exact (proj2 (dump_requires_valid ext Asn_Lv2Spec
                    (association_of (new_data "Asn_Lv2Spec")) None ∅ [])
                 "Validation failed" [] eq_refl).
Defined.

Lemma validate_path_warning_witness :
  let self := association_of (document "path/to/jw_a_rate.fits") in
  sound_document (data self) = true /\
  has_directory "path/to/jw_a_rate.fits" = true /\
  is_valid ext Asn_Lv2Spec self [] = (Ok true, [UserWarning path_warning]).
Proof.
  cbv zeta. split; [reflexivity |]. split; [reflexivity |].
  exact (proj1 (proj2
    (validate_path_warning ext Asn_Lv2Spec
       (association_of (document "path/to/jw_a_rate.fits"))
       "asn_schema.json" JNull [] eq_refl eq_refl eq_refl eq_refl
       (ex_intro _ "path/to/jw_a_rate.fits" (conj (or_introl eq_refl) eq_refl))))).
Defined.

End Runs.

(** * Further properties *)

(** ** One constraint over a run of items *)

Section MatchConstraintRuns.

Variable meets_conditions : string -> string -> bool.

(** A failed match hands the conditions back as they were. *)
Lemma match_constraint_failed (item : Item) (c : Conditions) :
  fst (fst (match_constraint meets_conditions item c)) = false ->
  snd (match_constraint meets_conditions item c) = c.
Proof.
  unfold match_constraint.
  destruct (match value c with Some v => _ | None => false end);
    [reflexivity | discriminate].
Qed.

(** Property X1: [match_constraint] never asks for reprocessing and
    never changes where the value is read from; a failure changes
    nothing; the found values only grow, and after a match they hold the
    escaped value of the item and the constraint is bound; a bound
    constraint never becomes unbound again. *)
Theorem match_constraint_invariants (item : Item) (c : Conditions) :
  let r := match_constraint meets_conditions item c in
  snd (fst r) = [] /\
  inputs (snd r) = inputs c /\
  found_values c ⊆ found_values (snd r) /\
  (fst (fst r) = false -> snd r = c) /\
  (fst (fst r) = true ->
     re_escape (inputs c item) ∈ found_values (snd r) /\ value (snd r) <> None) /\
  (value c <> None -> value (snd r) <> None).
Proof.
  cbv zeta. split; [| split; [| split; [| split; [| split]]]].
  - unfold match_constraint.
    destruct (match value c with Some v => _ | None => false end); reflexivity.
  - unfold match_constraint.
    destruct (match value c with Some v => _ | None => false end);
      [reflexivity |].
    cbn. destruct (_ || _); reflexivity.
  - unfold match_constraint.
    destruct (match value c with Some v => _ | None => false end);
      [reflexivity |].
    cbn. destruct (_ || _); cbn; set_solver.
  - apply match_constraint_failed.
  - unfold match_constraint.
    destruct (match value c with Some v => _ | None => false end);
      [discriminate |].
    intros _. cbn. destruct (bool_decide (value c = None)) eqn:Hb; cbn.
    + split; [set_solver | discriminate].
    + apply bool_decide_eq_false in Hb.
      destruct (default DEFAULT_FORCE_UNIQUE (force_unique c)); cbn.
      * split; [set_solver | discriminate].
      * split; [set_solver | exact Hb].
  - intros Hv. unfold match_constraint.
    destruct (match value c with Some v => _ | None => false end);
      [exact Hv |].
    cbn. destruct (_ || _); cbn; [discriminate | exact Hv].
Qed.

(** Property X2: the items that fail a constraint leave no trace. A run
    of items brings the conditions to the same state as the run of only
    those items that matched, and in that run every item matches. *)
Theorem match_items_rejects_leave_no_trace (items : list Item) :
  forall c : Conditions,
    match_items meets_conditions (matched_items meets_conditions items c) c =
      (map (fun _ => true) (matched_items meets_conditions items c),
       snd (match_items meets_conditions items c)).
Proof.
  unfold matched_items.
  induction items as [| item rest IH]; intros c; [reflexivity |].
  cbn [match_items fst snd zip zip_with].
  destruct (fst (fst (match_constraint meets_conditions item c))) eqn:Hm.
  - cbn [List.filter map fst snd match_items].
    rewrite Hm, IH. reflexivity.
  - cbn [List.filter map fst snd].
    rewrite (match_constraint_failed item c Hm). apply IH.
Qed.

End MatchConstraintRuns.

(** ** Checking the tree and adding *)

Section AddMore.

Context {C : Type} `{!ConstraintTree C}.
Variable cls : RuleClass C.

(** Property X4: the init hook is run at most once. When
    [run_init_hook] is false, [add] does the same whatever the init hook
    is; and when the tree has matched and [add] returns, [_add] was
    called on an association whose [run_init_hook] is false. *)
Theorem add_init_hook_once (item : Item) (a a0 : Association C) :
  is_item_member cls item a = (Ok false, a0) ->
  (run_init_hook a0 = false ->
   forall hook chk, add (with_init_hook cls hook) item chk a = add cls item chk a) /\
  (forall m r a',
     add cls item true a = (Ok (m, r), a') ->
     fst (fst (check_and_set item (preserve (constraints a0)))) = true ->
     exists ax, run_init_hook ax = false /\ _add cls item ax = (Ok tt, a')).
Proof.
  intros Hm. split.
  - intros Hrun hook chk. destruct chk.
    + rewrite (add_checked_run (with_init_hook cls hook) item a a0 Hm).
      rewrite (add_checked_run cls item a a0 Hm). cbv zeta.
      destruct (fst (fst (check_and_set item (preserve (constraints a0)))));
        [| reflexivity].
      cbn. rewrite Hrun. reflexivity.
    + rewrite (add_unchecked_run (with_init_hook cls hook) item a a0 Hm).
      rewrite (add_unchecked_run cls item a a0 Hm).
      cbn. rewrite Hrun. reflexivity.
  - intros m r a' Hadd Hmatched.
    rewrite (add_checked_run cls item a a0 Hm) in Hadd. cbv zeta in Hadd.
    rewrite Hmatched in Hadd. cbn [run_init_hook set_constraints] in Hadd.
    unfold bind at 1 in Hadd.
    destruct (run_init_hook a0) eqn:Hrun.
    + unfold bind at 1 in Hadd.
      destruct (_init_hook cls item _) as [[[] | e] a2]; [| discriminate].
      unfold modify in Hadd.
      destruct (_add cls item (set_run_init_hook false a2)) as [[[] | e] a3] eqn:Hadd3;
        [| discriminate].
      exists (set_run_init_hook false a2). split; [reflexivity |].
      rewrite Hadd3. f_equal.
      destruct (getitem_value "force_match" (constraints a3)) as [[fm |] | e];
        try (injection Hadd as _ _ <-; reflexivity).
      destruct e; try discriminate; injection Hadd as _ _ <-; reflexivity.
    + unfold ret in Hadd.
      destruct (_add cls item _) as [[[] | e] a3] eqn:Hadd3; [| discriminate].
      eexists. split; [| rewrite Hadd3; f_equal].
      * exact Hrun.
      * destruct (getitem_value "force_match" (constraints a3)) as [[fm |] | e];
          try (injection Hadd as _ _ <-; reflexivity).
        destruct e; try discriminate; injection Hadd as _ _ <-; reflexivity.
Qed.

End AddMore.

(** ** Validation, once more *)

(** A string without a slash is a path of one component at most. *)
Lemma split_slash_plain (s : string) :
  ~ In slash (list_ascii_of_string s) -> split_slash s = [s].
Proof.
  induction s as [| c s IH]; [reflexivity |].
  cbn. intros Hno.
  destruct (Ascii.eqb_spec c slash) as [-> | _]; [tauto |].
  rewrite IH by tauto. reflexivity.
Qed.

Lemma has_directory_plain (s : string) :
  ~ In slash (list_ascii_of_string s) -> has_directory s = false.
Proof.
  intros Hno. unfold has_directory. apply bool_decide_eq_false. intros Hne.
  apply Hne. clear Hne. unfold parent, Path_cwd, Path.
  rewrite (split_slash_plain s Hno).
  assert (Hroot : match s with
                  | String c _ => if Ascii.eqb c slash then "/" else ""
                  | EmptyString => ""
                  end = "").
  { destruct s as [| c s]; [reflexivity |].
    destruct (Ascii.eqb_spec c slash) as [-> | _]; [| reflexivity].
    exfalso. apply Hno. left. reflexivity. }
  rewrite Hroot. cbn.
  destruct (decide (s <> "" /\ s <> ".")); reflexivity.
Qed.

Section ValidationMore.

Context {C : Type} `{!ConstraintTree C}.
Variable ext : Externals.
Variable cls : RuleClass C.

(** An exception of [validate] other than the not-valid one goes
    through [is_valid], [finalize] and [dump]. *)
Lemma validate_error_passes (self : Association C) (e : exn)
    (log log' : list Warning) :
  validate ext cls (data self) log = (Raise e, log') ->
  (forall msg, e <> AssociationNotValidError msg) ->
  is_valid ext cls self log = (Raise e, log') /\
  finalize ext cls self log = (Raise e, log') /\
  forall fmt kwargs, dump ext cls self fmt kwargs log = (Raise e, log').
Proof.
  intros Hv He.
  assert (Hvalid : is_valid ext cls self log = (Raise e, log')).
  { rewrite is_valid_of_validate, Hv. destruct e; try reflexivity.
    exfalso. eapply He. reflexivity. }
  split; [exact Hvalid |]. split.
  - unfold finalize, bind. rewrite Hvalid. reflexivity.
  - intros fmt kwargs. unfold dump, bind. rewrite Hvalid. reflexivity.
Qed.

(** Property X5: a rule class without [schema_file] takes every
    association for valid, whatever its data: [validate] returns [True]
    with one logged warning, [is_valid] is true, [finalize] returns the
    list holding the association, and [dump] goes to the registered
    format. *)
Theorem validate_without_schema (self : Association C) (fmt : option Value)
    (kwargs : Kwargs) (log : list Warning) :
  schema_file cls = None ->
  let log' :=
    (log ++ [LoggerWarning "Cannot validate: the rule has no schema. Presuming OK."])%list in
  validate ext cls (data self) log = (Ok true, log') /\
  is_valid ext cls self log = (Ok true, log') /\
  finalize ext cls self log = (Ok (RList [self]), log') /\
  dump ext cls self fmt kwargs log =
    (match registry_getitem (ioregistry cls)
             (match fmt with
              | Some f => f
              | None => default (VStr "json") (kwargs !! "format")
              end) with
     | Ok io => io_dump io self
                  (match fmt with
                   | Some _ => kwargs
                   | None => delete "format" kwargs
                   end)
     | Raise e => Raise e
     end, log').
Proof.
  intros Hs log'.
  assert (Hv : validate ext cls (data self) log = (Ok true, log')).
  { unfold validate. rewrite Hs. reflexivity. }
  assert (Hvalid : is_valid ext cls self log = (Ok true, log')).
  { rewrite is_valid_of_validate, Hv. reflexivity. }
  split; [exact Hv |]. split; [exact Hvalid |]. split.
  - unfold finalize, bind. rewrite Hvalid. reflexivity.
  - unfold dump, bind. rewrite Hvalid. unfold of_result.
    destruct fmt; cbn [fst snd];
      destruct (registry_getitem (ioregistry cls) _); reflexivity.
Qed.

(** Property X6: the schema is the only guard of the document's shape.
    When the schema lets through a document without the key [products],
    [validate] raises [KeyError] and not the not-valid error; so do
    [is_valid], [finalize] and [dump], which catch the not-valid error
    only. *)
Theorem validate_missing_products (self : Association C) (file : string)
    (schema : JVal) (log : list Warning) :
  schema_file cls = Some file ->
  open_schema ext file = Ok schema ->
  jsonschema_validate ext (data self) schema = Ok tt ->
  dict_get "products" (data self) = None ->
  validate ext cls (data self) log = (Raise (KeyError "products"), log) /\
  is_valid ext cls self log = (Raise (KeyError "products"), log) /\
  finalize ext cls self log = (Raise (KeyError "products"), log) /\
  forall fmt kwargs,
    dump ext cls self fmt kwargs log = (Raise (KeyError "products"), log).
Proof.
  intros Hf Ho Hv Hp.
  assert (Hval : validate ext cls (data self) log
                 = (Raise (KeyError "products"), log)).
  { unfold validate. rewrite Hf.
    unfold bind at 1. unfold of_result at 1. rewrite Ho.
    unfold bind at 1. unfold try_except, of_result at 1. rewrite Hv.
    unfold bind at 1. unfold of_result at 1. cbn [subscript]. rewrite Hp.
    reflexivity. }
  split; [exact Hval |].
  apply (validate_error_passes self _ log log Hval). discriminate.
Qed.

(** Property X7: file names without a slash draw no warning. On a
    sound document that passes the schema and whose every [expname] is
    free of slashes, [validate] returns [True] and issues nothing. *)
Theorem validate_plain_names_silent (d : Dict) (file : string)
    (schema : JVal) (log : list Warning) :
  schema_file cls = Some file ->
  open_schema ext file = Ok schema ->
  jsonschema_validate ext d schema = Ok tt ->
  sound_document d = true ->
  Forall (fun s => ~ In slash (list_ascii_of_string s)) (expnames d) ->
  validate ext cls d log = (Ok true, log).
Proof.
  intros Hf Ho Hv Hs Hplain.
  rewrite (validate_sound ext cls d file schema log Hf Ho Hv Hs).
  unfold path_warnings.
  replace (List.filter has_directory (expnames d)) with (@nil string).
  - cbn. rewrite app_nil_r. reflexivity.
  - induction Hplain as [| s l Hs' _ IH]; [reflexivity |].
    cbn. rewrite (has_directory_plain s Hs'). exact IH.
Qed.

(** Property X8: a format that fails with another error than the
    not-valid one ends [load]. The formats before it have refused, the
    error is raised to the caller, and the formats after it are not
    tried. *)
Theorem load_format_error_propagates (serialized : string) (validate_ : bool)
    (kwargs : Kwargs) (log : list Warning)
    (pre post : list (IOFormat C)) (f : IOFormat C) (e : exn) :
  kwargs !! "format" = None ->
  map snd (ioregistry cls) = (pre ++ f :: post)%list ->
  Forall (fun g => exists msg,
            io_load g serialized kwargs = Raise (AssociationNotValidError msg))
         pre ->
  io_load f serialized kwargs = Raise e ->
  (forall msg, e <> AssociationNotValidError msg) ->
  load ext cls serialized None validate_ kwargs log = (Raise e, log).
Proof.
  intros Hk Hreg Hpre Hf He.
  unfold load. cbn [fst snd]. rewrite Hk, (delete_id _ _ Hk).
  unfold bind at 1. unfold ret at 1. unfold bind at 1. unfold of_result.
  rewrite Hreg, (try_formats_skip pre (f :: post) _ _ Hpre).
  cbn [try_formats]. rewrite Hf.
  destruct e; try reflexivity. exfalso. eapply He. reflexivity.
Qed.

End ValidationMore.

(** ** Making an association *)

Section CreateFacts.

Context {C : Type} `{!ConstraintTree C}.
Variable cls : RuleClass C.
Variable new : option string -> Result (Association C).

(** [add] on an item that is a member already. *)
Lemma add_member_run (item : Item) (chk : bool) (a a0 : Association C) :
  is_item_member cls item a = (Ok true, a0) ->
  add cls item chk a = (Ok (VBool true, []), a0).
Proof.
  intros Hm. unfold add. unfold bind at 1. rewrite Hm. reflexivity.
Qed.

(** Property X9: what [create] hands back holds the item. When the
    membership test is a query, [_add] makes the item a member and the
    rule has no [force_match] node in force, an association returned by
    [create] has the item as a member, and adding the item to it again
    returns [(True, [])] and changes nothing. *)
Theorem create_makes_member (item : Item) (v : option string)
    (asn : Association C) (r : list ProcessList) :
  (forall a, exists b, is_item_member cls item a = (Ok b, a)) ->
  (forall a a1, _add cls item a = (Ok tt, a1) ->
                is_item_member cls item a1 = (Ok true, a1)) ->
  create cls new item v = Ok (Some asn, r) ->
  getitem_value "force_match" (constraints asn) = Ok None \/
  (exists k, getitem_value "force_match" (constraints asn) = Raise (KeyError k)) ->
  is_item_member cls item asn = (Ok true, asn) /\
  forall chk, add cls item chk asn = (Ok (VBool true, []), asn).
Proof.
  intros Hpure Hadded Hcreate Hfm.
  assert (Hmember : is_item_member cls item asn = (Ok true, asn)).
  { unfold create in Hcreate.
    destruct (new v) as [a0 | e]; [| discriminate].
    destruct (add cls item true a0) as [[[m r'] | e] a1] eqn:Hadd;
      [| discriminate].
    destruct (truthy m) eqn:Hm; cbn in Hcreate; [| discriminate].
    injection Hcreate as -> ->.
    destruct (Hpure a0) as [[|] Hq].
    - rewrite (add_member_run item true a0 a0 Hq) in Hadd.
      injection Hadd as _ _ <-. exact Hq.
    - destruct (add_checked_inv cls item a0 a0 asn m r Hq Hadd) as [Hlast Hret].
      cbv zeta in Hlast, Hret.
      assert (Hmatched : m = VBool (fst (fst (check_and_set item
                                                (preserve (constraints a0)))))).
      { destruct Hfm as [Hnone | [k Hk]].
        - rewrite Hnone in Hret. exact Hret.
        - rewrite Hk in Hret. exact Hret. }
      rewrite Hmatched in Hm. cbn in Hm. rewrite Hm in Hlast.
      destruct Hlast as [ax Hax]. eapply Hadded. exact Hax. }
  split; [exact Hmember |].
  intros chk. apply add_member_run. exact Hmember.
Qed.

End CreateFacts.

Section BaseClass.

Context {C : Type} `{!ConstraintTree C}.

(** The class [Association] itself takes no item. Its
    [add] raises [NotImplementedError] for every item, with or without
    the constraints checked, and leaves the association as it is; so
    [create] raises for every item, too. *)
Theorem base_class_takes_no_item (reg : list (string * IOFormat C))
    (__version__ : string) (Constraint_ : C) (append : C -> C -> C)
    (copy : C -> C) (predefined GLOBAL_CONSTRAINT : option C)
    (item : Item) (chk : bool) (a : Association C) (v : option string) :
  let cls := Association_base reg in
  let err := NotImplementedError
    "Association.is_item_member must be implemented by a specific association rule." in
  add cls item chk a = (Raise err, a) /\
  create cls
    (fun v => Ok (__init__ __version__ Constraint_ append copy cls
                    predefined GLOBAL_CONSTRAINT v))
    item v = Raise err.
Proof. split; reflexivity. Qed.

End BaseClass.

(** ** Finalizing a list of associations *)

Lemma appends_ret {A} (a : A) : appends (ret a).
Proof. intros log. cbn. rewrite app_nil_r. reflexivity. Qed.

Lemma appends_raise {A} (e : exn) : appends (@raise _ A e).
Proof. intros log. cbn. rewrite app_nil_r. reflexivity. Qed.

Lemma appends_of_result {A} (r : Result A) : appends (of_result r).
Proof. intros log. cbn. rewrite app_nil_r. reflexivity. Qed.

Lemma appends_warn (w : Warning) : appends (warn w).
Proof. intros log. reflexivity. Qed.

Lemma appends_bind {A B} (m : M (list Warning) A) (k : A -> M (list Warning) B) :
  appends m -> (forall a, appends (k a)) -> appends (bind m k).
Proof.
  intros Hm Hk log. unfold bind. rewrite (Hm log).
  destruct (m []) as [[a | e] w]; cbn [fst snd].
  - rewrite (Hk a (log ++ w)%list), (Hk a w).
    cbn [fst snd]. rewrite app_assoc. reflexivity.
  - reflexivity.
Qed.

Lemma appends_try_except {A} (m : M (list Warning) A)
    (h : exn -> option (M (list Warning) A)) :
  appends m -> (forall e k, h e = Some k -> appends k) ->
  appends (try_except m h).
Proof.
  intros Hm Hh log. unfold try_except. rewrite (Hm log).
  destruct (m []) as [[a | e] w]; cbn [fst snd]; [reflexivity |].
  destruct (h e) as [k |] eqn:He; [| reflexivity].
  rewrite (Hh e k He (log ++ w)%list), (Hh e k He w).
  cbn [fst snd]. rewrite app_assoc. reflexivity.
Qed.

Lemma appends_for_each {A} (l : list A) (body : A -> M (list Warning) unit) :
  (forall x, appends (body x)) -> appends (for_each l body).
Proof.
  intros Hb. induction l as [| x l IH]; cbn [for_each].
  - apply appends_ret.
  - apply appends_bind; [apply Hb | intros _; exact IH].
Qed.

Section FinalizeAll.

Context {C : Type} `{!ConstraintTree C}.
Variable ext : Externals.

Lemma check_expname_appends (member : JVal) : appends (check_expname member).
Proof.
  unfold check_expname.
  apply appends_bind; [apply appends_of_result | intros expname].
  apply appends_bind; [apply appends_of_result | intros fpath].
  destruct (bool_decide (fpath <> Path_cwd));
    [apply appends_warn | apply appends_ret].
Qed.

Lemma check_members_appends (product : JVal) : appends (check_members product).
Proof.
  unfold check_members.
  apply appends_bind; [apply appends_of_result | intros members].
  apply appends_bind; [apply appends_of_result | intros members'].
  apply appends_for_each. apply check_expname_appends.
Qed.

Lemma validate_appends (cls : RuleClass C) (d : Dict) :
  appends (validate ext cls d).
Proof.
  unfold validate. destruct (schema_file cls) as [file |].
  - apply appends_bind; [apply appends_of_result | intros asn_schema].
    apply appends_bind.
    + apply appends_try_except; [apply appends_of_result |].
      intros e k. destruct e; intros [= <-]; apply appends_raise.
    + intros _.
      apply appends_bind; [apply appends_of_result | intros products].
      apply appends_bind; [apply appends_of_result | intros products'].
      apply appends_bind; [| intros _; apply appends_ret].
      apply appends_for_each. apply check_members_appends.
  - apply appends_bind; [apply appends_warn | intros _; apply appends_ret].
Qed.

Lemma finalize_appends (cls : RuleClass C) (self : Association C) :
  appends (finalize ext cls self).
Proof.
  unfold finalize. apply appends_bind.
  - unfold is_valid. apply appends_try_except.
    + apply appends_bind; [apply validate_appends | intros _; apply appends_ret].
    + intros e k. destruct e; intros [= <-]; apply appends_ret.
  - intros []; apply appends_ret.
Qed.

(** [finalize] returns the list holding the association or [None], or
    raises. *)
Lemma finalize_cases (cls : RuleClass C) (self : Association C)
    (log : list Warning) :
  (exists log', finalize ext cls self log = (Ok (RList [self]), log')) \/
  (exists log', finalize ext cls self log = (Ok RNone, log')) \/
  (exists e log', finalize ext cls self log = (Raise e, log')).
Proof.
  unfold finalize, bind.
  destruct (is_valid ext cls self log) as [[[|] | e] log']; cbn; eauto.
Qed.

(** Property X10: the generic [finalize] of a list of associations.
    When no [finalize] of an association raises, the result is, in the
    order of the input, one entry for each association that is valid,
    none for the others; an entry is the one-element list holding the
    association, not the association; and the warnings are those of all
    the associations, one after the other. *)
Theorem generic_finalize_keeps_valid (asns : list (RuleClass C * Association C)) :
  Forall (fun ca => exists r, fst (finalize ext (fst ca) (snd ca) []) = Ok r) asns ->
  forall log,
    generic_finalize (finalize ext) asns log =
      (Ok (map (fun ca => RList [snd ca]) (List.filter (finalized ext) asns)),
       (log ++ List.concat (map (finalize_warnings ext) asns))%list).
Proof.
  unfold generic_finalize.
  induction 1 as [| [cls self] asns [r Hr] _ IH]; intros log.
  - cbn. rewrite app_nil_r. reflexivity.
  - unfold bind in *. cbn [map_M]. unfold bind at 1.
    cbn [fst snd]. rewrite (finalize_appends cls self log).
    cbn [fst snd] in Hr. rewrite Hr.
    unfold bind at 1. specialize (IH (log ++ snd (finalize ext cls self []))%list).
    destruct (map_M _ asns _) as [[rs | e] log'] eqn:Hrest; [| discriminate].
    unfold ret in *. injection IH as Hrs Hlog.
    cbn [List.filter map List.concat]. unfold finalized at 1, finalize_warnings at 1.
    cbn [fst snd]. rewrite Hr, Hlog, <- app_assoc. f_equal.
    destruct (finalize_cases cls self []) as [[l Hc] | [[l Hc] | (e & l & Hc)]];
      rewrite Hc in Hr; cbn in Hr; try discriminate;
      injection Hr as <-; cbn; rewrite Hrs; reflexivity.
Qed.

End FinalizeAll.

(** ** The association as a mapping *)

Lemma dict_get_set (k k' : string) (v : JVal) (d : Dict) :
  dict_get k' (dict_set k v d) =
    if String.eqb k' k then Some v else dict_get k' d.
Proof.
  induction d as [| [k0 v0] d IH]; cbn.
  - destruct (String.eqb k' k); reflexivity.
  - destruct (String.eqb_spec k k0) as [-> | Hne]; cbn.
    + destruct (String.eqb k' k0); reflexivity.
    + rewrite IH. destruct (String.eqb_spec k' k0) as [-> | Hne'].
      * destruct (String.eqb_spec k0 k) as [-> | _]; [contradiction | reflexivity].
      * reflexivity.
Qed.

Lemma dict_get_del (k k' : string) (d : Dict) :
  dict_get k' (dict_del k d) =
    if String.eqb k' k then None else dict_get k' d.
Proof.
  unfold dict_del. induction d as [| [k0 v0] d IH]; cbn.
  - destruct (String.eqb k' k); reflexivity.
  - destruct (String.eqb_spec k k0) as [-> | Hne]; cbn.
    + rewrite IH. destruct (String.eqb k' k0); reflexivity.
    + rewrite IH. destruct (String.eqb_spec k' k0) as [-> | Hne'].
      * destruct (String.eqb_spec k0 k) as [-> | _]; [contradiction | reflexivity].
      * reflexivity.
Qed.

Lemma dict_get_None (k : string) (d : Dict) :
  dict_get k d = None <-> ~ In k (map fst d).
Proof.
  induction d as [| [k0 v0] d IH]; cbn.
  - tauto.
  - destruct (String.eqb_spec k k0) as [-> | Hne].
    + split; [discriminate | tauto].
    + rewrite IH. split; [intros H [Heq | Hin]; [congruence | tauto] | tauto].
Qed.

Lemma dict_set_keys (k : string) (v : JVal) (d : Dict) :
  map fst (dict_set k v d) =
    match dict_get k d with
    | Some _ => map fst d
    | None => (map fst d ++ [k])%list
    end.
Proof.
  induction d as [| [k0 v0] d IH]; cbn; [reflexivity |].
  destruct (String.eqb_spec k k0) as [-> | Hne]; cbn; [reflexivity |].
  rewrite IH. destruct (dict_get k d); reflexivity.
Qed.

Lemma dict_del_keys (k : string) (d : Dict) :
  map fst (dict_del k d) =
    List.filter (fun k' => negb (String.eqb k k')) (map fst d).
Proof.
  unfold dict_del. induction d as [| [k0 v0] d IH]; cbn; [reflexivity |].
  destruct (String.eqb k k0); cbn; rewrite IH; reflexivity.
Qed.

Section MappingFacts.

Context {C : Type}.

Ltac run :=
  unfold __getitem__, __setitem__, __delitem__, keys, __len__, __keytransform__,
    bind, ret, get, gets, modify, raise, of_result; cbn.

(** Property X11: item assignment and lookup. After [asn[key] = value],
    [asn[key]] is [value] and every other key reads as before; the
    assignment never fails and touches nothing but the data. *)
Theorem setitem_getitem (key : string) (value : JVal) (a : Association C) :
  exists a',
    __setitem__ key value a = (Ok tt, a') /\
    __getitem__ key a' = (Ok value, a') /\
    (forall key', key' <> key ->
       fst (__getitem__ key' a') = fst (__getitem__ key' a)) /\
    run_init_hook a' = run_init_hook a /\ meta a' = meta a /\
    version_id a' = version_id a /\ constraints a' = constraints a /\
    accepted_items a' = accepted_items a.
Proof.
  eexists. split; [reflexivity |]. split; [| split].
  - run. rewrite dict_get_set, String.eqb_refl. reflexivity.
  - intros key' Hne. run. rewrite dict_get_set.
    destruct (String.eqb_spec key' key) as [-> | _]; [contradiction | reflexivity].
  - repeat split; reflexivity.
Qed.

(** Property X12: item deletion. [del asn[key]] for a key that is not
    there raises [KeyError] and changes nothing; for a key that is
    there, [asn[key]] raises [KeyError] afterwards and every other key
    reads as before. *)
Theorem delitem_getitem (key : string) (a : Association C) :
  (dict_get key (data a) = None ->
   __delitem__ key a = (Raise (KeyError key), a)) /\
  (forall v, dict_get key (data a) = Some v ->
   exists a',
     __delitem__ key a = (Ok tt, a') /\
     __getitem__ key a' = (Raise (KeyError key), a') /\
     forall key', key' <> key ->
       fst (__getitem__ key' a') = fst (__getitem__ key' a)).
Proof.
  split.
  - intros Hk. run. rewrite Hk. reflexivity.
  - intros v Hk. eexists. split; [run; rewrite Hk; reflexivity |]. split.
    + run. rewrite dict_get_del, String.eqb_refl. reflexivity.
    + intros key' Hne. run. rewrite dict_get_del.
      destruct (String.eqb_spec key' key) as [-> | _]; [contradiction | reflexivity].
Qed.

(** Property X13: the keys keep their order. [asn[key] = value] leaves
    the keys as they are when [key] is among them and puts [key] last
    when it is not; [del asn[key]] takes [key] out and leaves the others
    in their order; distinct keys stay distinct, and [len] counts
    them. *)
Theorem mapping_keys_order (key : string) (value : JVal) (a : Association C) :
  let ks := map fst (data a) in
  let a1 := snd (__setitem__ key value a) in
  let a2 := snd (__delitem__ key a) in
  keys a = (Ok ks, a) /\ __len__ a = (Ok (List.length ks), a) /\
  keys a1 = (Ok (if bool_decide (key ∈ ks) then ks else (ks ++ [key])%list), a1) /\
  keys a2 = (Ok (List.filter (fun k => negb (String.eqb key k)) ks), a2) /\
  (NoDup ks -> NoDup (map fst (data a1)) /\ NoDup (map fst (data a2))).
Proof.
  cbv zeta. split; [reflexivity |]. split; [run; rewrite length_map; reflexivity |].
  split; [| split].
  - run. rewrite dict_set_keys.
    destruct (dict_get key (data a)) as [v |] eqn:Hk.
    + rewrite bool_decide_eq_true_2; [reflexivity |].
      apply list_elem_of_In. destruct (in_dec string_dec key (map fst (data a)))
        as [Hin | Hnin]; [exact Hin |].
      apply dict_get_None in Hnin. congruence.
    + rewrite bool_decide_eq_false_2; [reflexivity |].
      rewrite list_elem_of_In. apply dict_get_None. exact Hk.
  - run. destruct (dict_get key (data a)) as [v |] eqn:Hk; cbn.
    + rewrite dict_del_keys. reflexivity.
    + f_equal. f_equal. apply dict_get_None in Hk.
      induction (map fst (data a)) as [| k ks IH]; [reflexivity |].
      cbn. destruct (String.eqb_spec key k) as [-> | _]; cbn.
      * exfalso. apply Hk. left. reflexivity.
      * f_equal. apply IH. intros Hin. apply Hk. right. exact Hin.
  - intros Hnd. split.
    + run. rewrite dict_set_keys.
      destruct (dict_get key (data a)) as [v |] eqn:Hk; [exact Hnd |].
      apply NoDup_app. split; [exact Hnd |]. split.
      * intros x Hx Hx'. apply list_elem_of_singleton in Hx'. subst x.
        apply dict_get_None in Hk. apply Hk. apply list_elem_of_In. exact Hx.
      * apply NoDup_singleton.
    + run. destruct (dict_get key (data a)) as [v |] eqn:Hk; cbn; [| exact Hnd].
      rewrite dict_del_keys. apply NoDup_ListNoDup.
      apply List.NoDup_filter. apply NoDup_ListNoDup. exact Hnd.
Qed.

(** ** [_add_items] *)

Lemma for_each_dict_set (d2 : Dict) :
  forall d : Dict,
    for_each d2 (fun kv => modify (dict_set (fst kv) (snd kv))) d =
      (Ok tt, fold_left (fun acc kv => dict_set (fst kv) (snd kv) acc) d2 d).
Proof.
  induction d2 as [| [k v] d2 IH]; intros d; [reflexivity |].
  cbn. unfold bind, modify. cbn. apply IH.
Qed.

Lemma fold_dict_set_get (k : string) (d2 : Dict) :
  NoDup (map fst d2) ->
  forall d : Dict,
    dict_get k (fold_left (fun acc kv => dict_set (fst kv) (snd kv) acc) d2 d) =
      match dict_get k d2 with
      | Some v => Some v
      | None => dict_get k d
      end.
Proof.
  induction d2 as [| [k1 v1] d2 IH]; intros Hnd d; [reflexivity |].
  cbn in Hnd. apply NoDup_cons in Hnd as [Hnin Hnd].
  cbn. rewrite (IH Hnd), dict_get_set.
  destruct (String.eqb_spec k k1) as [-> | Hne]; [| reflexivity].
  assert (Hnone : dict_get k1 d2 = None).
  { apply dict_get_None. rewrite <- list_elem_of_In. exact Hnin. }
  rewrite Hnone. reflexivity.
Qed.

(** Property X14: [_add_items] on an association without [members]
    puts the items there as they are. When the items are a list, as the
    method asks for, a second [_add_items] fails: a list has no
    [update], the method raises [AttributeError] and the association
    stays as the first call left it. *)
Theorem _add_items_first_then_again (items : JVal) (a : Association C) :
  dict_get "members" (data a) = None ->
  exists a1,
    _add_items items a = (Ok tt, a1) /\
    __getitem__ "members" a1 = (Ok items, a1) /\
    (forall key, key <> "members" ->
       fst (__getitem__ key a1) = fst (__getitem__ key a)) /\
    forall l more, items = JList l ->
      _add_items more a1 = (Raise AttributeError, a1).
Proof.
  intros Hk. eexists. split; [| split; [| split]].
  - unfold _add_items, try_except. run. rewrite Hk. reflexivity.
  - run. rewrite dict_get_set. reflexivity.
  - intros key Hne. run. rewrite dict_get_set.
    destruct (String.eqb_spec key "members") as [-> | _];
      [contradiction | reflexivity].
  - intros l more ->. unfold _add_items, try_except. run.
    rewrite dict_get_set. reflexivity.
Qed.

(** Property X15: [_add_items] with a dictionary, on an association
    whose [members] is a dictionary, merges the two: afterwards a key of
    the items has the value the items give it and every other key of
    [members] has the value it had; the rest of the data is as it
    was. *)
Theorem _add_items_merges (d d2 : Dict) (a : Association C) :
  dict_get "members" (data a) = Some (JDict d) ->
  NoDup (map fst d2) ->
  exists a1 d1,
    _add_items (JDict d2) a = (Ok tt, a1) /\
    dict_get "members" (data a1) = Some (JDict d1) /\
    (forall k, dict_get k d1 = match dict_get k d2 with
                               | Some v => Some v
                               | None => dict_get k d
                               end) /\
    forall key, key <> "members" ->
      dict_get key (data a1) = dict_get key (data a).
Proof.
  intros Hk Hnd. eexists _, _. split; [| split; [| split]].
  - unfold _add_items, try_except. run. rewrite Hk. cbn.
    rewrite for_each_dict_set. reflexivity.
  - cbn. rewrite dict_get_set. reflexivity.
  - intros k. apply fold_dict_set_get. exact Hnd.
  - intros key Hne. cbn. rewrite dict_get_set.
    destruct (String.eqb_spec key "members") as [-> | _];
      [contradiction | reflexivity].
Qed.

End MappingFacts.

(** ** Product names and their duplicates *)

Lemma map_R_app {A B} (f : A -> Result B) (pre post : list A) (ys : list B) :
  map_R f pre = Ok ys ->
  map_R f (pre ++ post) = and_then (map_R f post) (fun zs => Ok (ys ++ zs)%list).
Proof.
  revert ys. induction pre as [| x pre IH]; intros ys; cbn.
  - intros [= <-]. destruct (map_R f post); reflexivity.
  - destruct (f x) as [y | e]; cbn; [| discriminate].
    destruct (map_R f pre) as [ys' | e]; cbn; [| discriminate].
    intros [= <-]. rewrite (IH ys' eq_refl).
    destruct (map_R f post); reflexivity.
Qed.

Lemma counter_add_keys (x : Scalar) (counts : list (Scalar * nat)) :
  map fst (counter_add x counts) =
    if bool_decide (x ∈ map fst counts) then map fst counts
    else (map fst counts ++ [x])%list.
Proof.
  induction counts as [| [y n] counts IH]; cbn; [reflexivity |].
  destruct (decide (x = y)) as [-> | Hne]; cbn.
  - rewrite bool_decide_eq_true_2 by (left). reflexivity.
  - rewrite IH. destruct (bool_decide (x ∈ map fst counts)) eqn:Hin.
    + apply bool_decide_eq_true in Hin.
      rewrite bool_decide_eq_true_2 by (right; exact Hin). reflexivity.
    + apply bool_decide_eq_false in Hin.
      rewrite bool_decide_eq_false_2; [reflexivity |].
      intros Hin'. apply elem_of_cons in Hin' as [-> | Hin']; contradiction.
Qed.

Lemma counter_get_add (x y : Scalar) (counts : list (Scalar * nat)) :
  counter_get y (counter_add x counts) =
    counter_get y counts + (if decide (x = y) then 1 else 0).
Proof.
  induction counts as [| [z m] counts IH]; cbn.
  - destruct (decide (y = x)) as [-> | Hne].
    + rewrite decide_True by reflexivity. reflexivity.
    + rewrite decide_False by congruence. reflexivity.
  - destruct (decide (x = z)) as [-> | Hxz]; cbn.
    + destruct (decide (y = z)) as [-> | Hyz].
      * rewrite decide_True by reflexivity. lia.
      * rewrite decide_False by congruence. lia.
    + destruct (decide (y = z)) as [-> | Hyz].
      * rewrite decide_False by exact Hxz. lia.
      * exact IH.
Qed.

Lemma Counter_get (y : Scalar) (l : list Scalar) :
  counter_get y (Counter l) = count_occ Scalar_eq_dec l y.
Proof.
  unfold Counter.
  assert (Hgen : forall counts,
            counter_get y (fold_left (fun counts x => counter_add x counts) l counts)
            = counter_get y counts + count_occ Scalar_eq_dec l y).
  { induction l as [| x l IH]; intros counts; cbn; [lia |].
    rewrite IH, counter_get_add.
    destruct (Scalar_eq_dec x y) as [-> | Hne].
    - rewrite decide_True by reflexivity. lia.
    - rewrite decide_False by exact Hne. lia. }
  rewrite Hgen. reflexivity.
Qed.

Lemma Counter_keys_NoDup (l : list Scalar) : NoDup (map fst (Counter l)).
Proof.
  unfold Counter.
  assert (Hgen : forall counts,
            NoDup (map fst counts) ->
            NoDup (map fst (fold_left (fun counts x => counter_add x counts) l counts))).
  { induction l as [| x l IH]; intros counts Hnd; cbn; [exact Hnd |].
    apply IH. rewrite counter_add_keys.
    destruct (bool_decide (x ∈ map fst counts)) eqn:Hin; [exact Hnd |].
    apply bool_decide_eq_false in Hin. apply NoDup_app.
    split; [exact Hnd |]. split; [| apply NoDup_singleton].
    intros y Hy Hy'. apply list_elem_of_singleton in Hy'. subst y. contradiction. }
  apply Hgen. constructor.
Qed.

Lemma counter_get_elem (x : Scalar) (n : nat) (counts : list (Scalar * nat)) :
  NoDup (map fst counts) -> (x, n) ∈ counts -> counter_get x counts = n.
Proof.
  induction counts as [| [z m] counts IH]; intros Hnd Hin; [inversion Hin |].
  cbn in Hnd. apply NoDup_cons in Hnd as [Hz Hnd].
  cbn. apply elem_of_cons in Hin as [[= -> ->] | Hin].
  - rewrite decide_True by reflexivity. reflexivity.
  - destruct (decide (x = z)) as [-> | Hne]; [| exact (IH Hnd Hin)].
    exfalso. apply Hz. apply list_elem_of_fmap.
    exists (z, n). split; [reflexivity | exact Hin].
Qed.

Lemma counter_get_pos (x : Scalar) (counts : list (Scalar * nat)) :
  counter_get x counts <> 0 -> (x, counter_get x counts) ∈ counts.
Proof.
  induction counts as [| [z m] counts IH]; cbn; [congruence |].
  destruct (decide (x = z)) as [-> | Hne]; intros Hpos.
  - left.
  - right. exact (IH Hpos).
Qed.

Lemma NoDup_filter_keys {A B} (f : A * B -> bool) (l : list (A * B)) :
  NoDup (map fst l) -> NoDup (map fst (List.filter f l)).
Proof.
  induction l as [| p l IH]; intros Hnd; [constructor |].
  cbn [map] in Hnd. apply NoDup_cons in Hnd as [Hp Hnd].
  cbn [List.filter]. destruct (f p); [| exact (IH Hnd)].
  cbn [map]. apply NoDup_cons. split; [| exact (IH Hnd)].
  intros Hin. apply Hp. apply list_elem_of_fmap in Hin as [q [-> Hin]].
  apply list_elem_of_In, List.filter_In in Hin as [Hin _].
  apply list_elem_of_fmap. exists q. split; [reflexivity |].
  apply list_elem_of_In. exact Hin.
Qed.

Section ProductNames.

Context {C : Type}.

(** Property X16: the duplicates among the product names. When every
    association has a product name and the names are scalars,
    [get_product_names] returns the set of the names and the list of the
    duplicates: a name is in the list exactly when two associations or
    more have it, it is there once, and the list is empty exactly when
    all names differ. *)
Theorem get_product_names_duplicates (asns : list (Association C))
    (raw : list JVal) (product_names : list Scalar) :
  map_R product_name asns = Ok raw ->
  map_R scalar_of raw = Ok product_names ->
  exists names dups,
    get_product_names asns = Ok (names, dups) /\
    (forall x, x ∈ names <-> x ∈ product_names) /\
    (forall x, x ∈ dups <-> 2 <= count_occ Scalar_eq_dec product_names x) /\
    NoDup dups /\
    (dups = [] <-> NoDup product_names).
Proof.
  intros Hraw Hnames. unfold get_product_names. rewrite Hraw. cbn [and_then].
  rewrite Hnames. cbn [and_then]. eexists _, _. split; [reflexivity |].
  pose proof (Counter_keys_NoDup product_names) as Hnd.
  set (dups := map fst (List.filter (fun nc => (1 <? snd nc)%nat)
                          (Counter product_names))).
  assert (Hdups : forall x, x ∈ dups <->
                    2 <= count_occ Scalar_eq_dec product_names x).
  { intros x. subst dups. rewrite list_elem_of_fmap. split.
    - intros [[y n] [-> Hin]]. apply list_elem_of_In, List.filter_In in Hin.
      destruct Hin as [Hin Hn]. apply list_elem_of_In in Hin.
      apply (counter_get_elem _ _ _ Hnd) in Hin. rewrite Counter_get in Hin.
      cbn [fst snd] in *. apply Nat.ltb_lt in Hn. lia.
    - intros Hx. exists (x, counter_get x (Counter product_names)).
      split; [reflexivity |]. apply list_elem_of_In, List.filter_In. split.
      + apply list_elem_of_In, counter_get_pos. rewrite Counter_get. lia.
      + cbn [fst snd]. rewrite Counter_get. apply Nat.ltb_lt. lia. }
  split; [intros x; apply elem_of_list_to_set |].
  split; [exact Hdups |]. split.
  - subst dups. apply NoDup_filter_keys. exact Hnd.
  - rewrite NoDup_ListNoDup, (NoDup_count_occ Scalar_eq_dec). split.
    + intros Hnil x.
      destruct (le_lt_dec (count_occ Scalar_eq_dec product_names x) 1)
        as [Hle | Hlt]; [exact Hle |].
      assert (Hin : x ∈ dups) by (apply Hdups; lia).
      rewrite Hnil in Hin. inversion Hin.
    + intros Hall. destruct dups as [| x dups'] eqn:Hd; [reflexivity |].
      assert (Hin : x ∈ x :: dups') by left.
      apply Hdups in Hin. specialize (Hall x). lia.
Qed.

(** Property X17: the first association, in the order of the list,
    whose product name cannot be read ends [get_product_names] with the
    exception of that read; one without [products] gives [KeyError], one
    whose [products] is the empty list gives [IndexError]. *)
Theorem get_product_names_unreadable (pre post : list (Association C))
    (asn : Association C) (raw : list JVal) (e : exn) :
  map_R product_name pre = Ok raw ->
  product_name asn = Raise e ->
  get_product_names (pre ++ asn :: post) = Raise e /\
  (dict_get "products" (data asn) = None -> e = KeyError "products") /\
  (dict_get "products" (data asn) = Some (JList []) -> e = IndexError).
Proof.
  intros Hpre Hasn. split; [| split].
  - unfold get_product_names. rewrite (map_R_app _ pre _ raw Hpre).
    cbn. rewrite Hasn. reflexivity.
  - intros Hk. unfold product_name, __getitem__, __keytransform__, bind, get,
      of_result in Hasn. cbn in Hasn. rewrite Hk in Hasn. cbn in Hasn.
      injection Hasn as <-. reflexivity.
  - intros Hk. unfold product_name, __getitem__, __keytransform__, bind, get,
      of_result in Hasn. cbn in Hasn. rewrite Hk in Hasn. cbn in Hasn.
      injection Hasn as <-. reflexivity.
Qed.

End ProductNames.

(** ** The closest direct image *)

Lemma filter_R_total {A} (f : A -> Result bool) (g : A -> bool) (l : list A) :
  Forall (fun x => f x = Ok (g x)) l ->
  filter_R f l = Ok (List.filter g l).
Proof.
  induction 1 as [| x l Hx _ IH]; [reflexivity |].
  cbn. rewrite Hx, IH. reflexivity.
Qed.

Lemma filter_R_raises {A} (f : A -> Result bool) (g : A -> bool)
    (pre post : list A) (x : A) (e : exn) :
  Forall (fun x => f x = Ok (g x)) pre ->
  f x = Raise e ->
  filter_R f (pre ++ x :: post) = Raise e.
Proof.
  induction 1 as [| y pre Hy _ IH]; intros Hx; cbn.
  - rewrite Hx. reflexivity.
  - rewrite Hy, (IH Hx). reflexivity.
Qed.

Lemma head_filter_find {A} (g : A -> bool) (l : list A) :
  head (List.filter g l) = List.find g l.
Proof.
  induction l as [| x l IH]; [reflexivity |].
  cbn. destruct (g x); [reflexivity | exact IH].
Qed.

(** Property X18: [find_closest_direct] picks a direct image of the
    list. When every direct image has an [expname] that can be searched,
    and there is a direct image at all, the result is the first one
    whose [expname] holds ["long"], and the first of the list when none
    does; the science member plays no part. *)
Theorem find_closest_direct_first_long (science : JVal) (directs : list JVal)
    (long : JVal -> bool) (first : JVal) (rest : list JVal) :
  Forall (fun d => is_long d = Ok (long d)) directs ->
  directs = first :: rest ->
  exists d,
    find_closest_direct science directs = Ok d /\
    d ∈ directs /\
    match List.find long directs with
    | Some l => d = l /\ long d = true
    | None => d = first /\ Forall (fun d => long d = false) directs
    end.
Proof.
  intros Hall Hd.
  assert (Hres : find_closest_direct science directs
                 = Ok (default first (List.find long directs))).
  { unfold find_closest_direct.
    rewrite (filter_R_total is_long long _ Hall). cbn [and_then].
    rewrite <- head_filter_find.
    destruct (List.filter long directs) as [| d ds]; [| reflexivity].
    rewrite Hd. reflexivity. }
  rewrite Hres. eexists. split; [reflexivity |].
  destruct (List.find long directs) as [l |] eqn:Hfind; cbn [default].
  - apply List.find_some in Hfind as [Hin Hl].
    split; [apply list_elem_of_In; exact Hin | split; [reflexivity | exact Hl]].
  - split; [rewrite Hd; left |]. split; [reflexivity |].
    apply Forall_forall. intros d Hin.
    apply (List.find_none _ _ Hfind). apply list_elem_of_In. exact Hin.
Qed.

(** Property X19: the failures of [find_closest_direct]. With no
    direct image it raises [IndexError]; and a direct image whose
    [expname] cannot be read or searched ends the call with that
    exception, even when a direct image before it holds ["long"]. *)
Theorem find_closest_direct_failures (science : JVal) :
  find_closest_direct science [] = Raise IndexError /\
  forall (long : JVal -> bool) (pre post : list JVal) (d : JVal) (e : exn),
    Forall (fun d => is_long d = Ok (long d)) pre ->
    is_long d = Raise e ->
    find_closest_direct science (pre ++ d :: post) = Raise e.
Proof.
  split; [reflexivity |].
  intros long pre post d e Hpre Hd. unfold find_closest_direct.
  rewrite (filter_R_raises is_long long pre post d e Hpre Hd). reflexivity.
Qed.

(** ** Sorting by candidate *)

Lemma ltb_false_leb (x y : string) :
  String.ltb y x = false -> String.leb x y = true.
Proof.
  unfold String.ltb, String.leb. rewrite (String.compare_antisym x y).
  destruct (String.compare y x); cbn; congruence.
Qed.

Lemma ltb_true_leb (x y : string) :
  String.ltb y x = true -> String.leb y x = true.
Proof.
  unfold String.ltb, String.leb. destruct (String.compare y x); congruence.
Qed.

Lemma ltb_irrefl (x : string) : String.ltb x x = false.
Proof.
  unfold String.ltb. pose proof (String.compare_antisym x x) as H.
  destruct (String.compare x x); cbn in H; congruence.
Qed.

Section Sorting.

Context {A : Type}.
Variable key : A -> string.

Lemma insert_sorted_keyed (x : A) (l : list A) :
  exists r,
    insert_sorted (keyed key x) (map (keyed key) l) = Ok (map (keyed key) r) /\
    r ≡ₚ x :: l /\
    (forall y, key_le key y x -> HdRel (key_le key) y l -> HdRel (key_le key) y r) /\
    (Sorted (key_le key) l -> Sorted (key_le key) r) /\
    forall s, List.filter (fun a => String.eqb (key a) s) r
              = List.filter (fun a => String.eqb (key a) s) (x :: l).
Proof.
  induction l as [| y l (r & Hins & Hperm & Hhd & Hsorted & Hstable)].
  - exists [x]. repeat split; auto.
  - cbn [map insert_sorted keyed fst key_lt and_then].
    destruct (String.ltb (key y) (key x)) eqn:Hlt.
    + exists (y :: r). change (JStr (key y), y) with (keyed key y).
      rewrite Hins. cbn [and_then map].
      split; [reflexivity |]. split; [| split; [| split]].
      * rewrite Hperm. apply perm_swap.
      * intros z Hzx Hz. constructor. inversion Hz; subst. assumption.
      * intros Hs. inversion Hs as [| ? ? Hl Hy]; subst.
        constructor; [exact (Hsorted Hl) |].
        apply Hhd; [apply ltb_true_leb; exact Hlt | exact Hy].
      * intros s. cbn [List.filter]. rewrite Hstable. cbn [List.filter].
        destruct (String.eqb_spec (key y) s) as [Hy | Hy];
          destruct (String.eqb_spec (key x) s) as [Hx | Hx]; try reflexivity.
        rewrite Hy, Hx, ltb_irrefl in Hlt. discriminate.
    + exists (x :: y :: l). split; [reflexivity |]. split; [reflexivity |].
      split; [| split].
      * intros z Hzx _. constructor. exact Hzx.
      * intros Hs. constructor; [exact Hs |]. constructor.
        apply ltb_false_leb. exact Hlt.
      * reflexivity.
Qed.

Lemma sorted_keyed (l : list A) :
  exists r,
    sorted (map (keyed key) l) = Ok (map (keyed key) r) /\
    r ≡ₚ l /\
    Sorted (key_le key) r /\
    forall s, List.filter (fun a => String.eqb (key a) s) r
              = List.filter (fun a => String.eqb (key a) s) l.
Proof.
  induction l as [| x l (r0 & Hsort & Hperm & Hs & Hstable)].
  - exists []. repeat split; constructor.
  - destruct (insert_sorted_keyed x r0) as (r & Hins & Hp & _ & Hsorted & Hst).
    exists r. cbn [map sorted]. rewrite Hsort. cbn [and_then].
    split; [exact Hins |]. split; [rewrite Hp, Hperm; reflexivity |].
    split; [exact (Hsorted Hs) |].
    intros s. rewrite Hst. cbn [List.filter]. rewrite Hstable. reflexivity.
Qed.

End Sorting.

Section SortByCandidate.

Context {C : Type}.

(** Property X20: [sort_by_candidate] on associations whose [asn_id]
    is a string returns the same associations, each as often as it was
    given, in ascending order of [asn_id]; those with the same [asn_id]
    keep the order they came in. *)
Theorem sort_by_candidate_sorted (asns : list (Association C))
    (id : Association C -> string) :
  Forall (fun asn => asn_id asn = Ok (JStr (id asn))) asns ->
  exists res,
    sort_by_candidate asns = Ok res /\
    res ≡ₚ asns /\
    Sorted (fun a b => String.leb (id a) (id b) = true) res /\
    forall s, List.filter (fun a => String.eqb (id a) s) res
              = List.filter (fun a => String.eqb (id a) s) asns.
Proof.
  intros Hall.
  assert (Hkeys : map_R (fun asn => and_then (asn_id asn) (fun k => Ok (k, asn))) asns
                  = Ok (map (keyed id) asns)).
  { induction Hall as [| asn asns Hasn _ IH]; [reflexivity |].
    cbn [map_R map]. rewrite Hasn. cbn [and_then]. rewrite IH. reflexivity. }
  destruct (sorted_keyed id asns) as (r & Hsort & Hperm & Hs & Hstable).
  exists r. unfold sort_by_candidate. rewrite Hkeys. cbn [and_then].
  rewrite Hsort. cbn [and_then]. split.
  - f_equal. rewrite map_map. cbn. apply map_id.
  - auto.
Qed.

(** Property X21: [sort_by_candidate] reads every [asn_id] before it
    sorts: the first association without the key [asn_id] ends the call
    with [KeyError], whatever the other associations are. *)
Theorem sort_by_candidate_missing_id (pre post : list (Association C))
    (asn : Association C) :
  Forall (fun a => exists k, asn_id a = Ok k) pre ->
  dict_get "asn_id" (data asn) = None ->
  sort_by_candidate (pre ++ asn :: post) = Raise (KeyError "asn_id").
Proof.
  intros Hpre Hk. unfold sort_by_candidate.
  assert (Hid : asn_id asn = Raise (KeyError "asn_id")).
  { unfold asn_id, __getitem__, __keytransform__, bind, get, of_result.
    cbn. rewrite Hk. reflexivity. }
  assert (Hkeys : map_R (fun asn => and_then (asn_id asn) (fun k => Ok (k, asn)))
                    (pre ++ asn :: post) = Raise (KeyError "asn_id")).
  { induction Hpre as [| a pre [k Ha] _ IH]; cbn [map_R app].
    - rewrite Hid. reflexivity.
    - rewrite Ha. cbn [and_then]. rewrite IH. reflexivity. }
  rewrite Hkeys. reflexivity.
Qed.

End SortByCandidate.

Section AddReprocess.

Context {C : Type} `{!ConstraintTree C}.
Variable cls : RuleClass C.

(** The reprocessing requests of a checked [add] that returns. *)
Lemma add_checked_reprocess (item : Item) (a a0 a' : Association C)
    (m : Value) (r : list ProcessList) :
  is_item_member cls item a = (Ok false, a0) ->
  add cls item true a = (Ok (m, r), a') ->
  r = map (set_trigger (rule_name cls))
          (snd (fst (check_and_set item (preserve (constraints a0))))).
Proof.
  intros Hm Hadd. rewrite (add_checked_run cls item a a0 Hm) in Hadd.
  cbv zeta in Hadd.
  destruct (if fst (fst (check_and_set item (preserve (constraints a0))))
            then _ else _) as [[[] | e] a2]; [| discriminate].
  destruct (getitem_value "force_match" (constraints a2)) as [[fm |] | e];
    try (injection Hadd as _ <- _; reflexivity).
  destruct e; try discriminate; injection Hadd as _ <- _; reflexivity.
Qed.

(** Property X22: the reprocessing requests that [add] returns. For a
    member there are none. For another item they are the requests of the
    tree, one for one and in their order, each with the rule among its
    trigger rules and with rules named; neither the hooks nor the
    [force_match] override change them. *)
Theorem add_reprocess_tagged (item : Item) (a a0 a' : Association C)
    (b : bool) (m : Value) (r : list ProcessList) :
  is_item_member cls item a = (Ok b, a0) ->
  add cls item true a = (Ok (m, r), a') ->
  if b then r = []
  else
    Forall2 (fun p0 p =>
               items p = items p0 /\ work_over p = work_over p0 /\
               trigger_rules p = {[rule_name cls]} ∪ trigger_rules p0 /\
               rules p = Some (default [rule_name cls] (rules p0)))
            (snd (fst (check_and_set item (preserve (constraints a0))))) r /\
    Forall (fun p => rule_name cls ∈ trigger_rules p /\ rules p <> None) r.
Proof.
  intros Hm Hadd. destruct b.
  - rewrite (add_member_run cls item true a a0 Hm) in Hadd.
    injection Hadd as _ <- _. reflexivity.
  - rewrite (add_checked_reprocess item a a0 a' m r Hm Hadd).
    induction (snd (fst (check_and_set item (preserve (constraints a0)))))
      as [| p0 ps [IH2 IH]]; [split; constructor |].
    split; constructor; try assumption.
    + repeat (split; [reflexivity |]). cbn. destruct (rules p0); reflexivity.
    + cbn. split; [set_solver |]. destruct (rules p0); discriminate.
Qed.

End AddReprocess.

Section ValidateCount.

Context {C : Type} `{!ConstraintTree C}.
Variable ext : Externals.
Variable cls : RuleClass C.

(** Property X23: one warning for each file name with a directory. On a
    sound document that passes the schema, [validate] returns [True] and
    adds to the warnings exactly one path warning for every member whose
    [expname] has a parent directory, members that share a name
    included, and nothing else. *)
Theorem validate_one_warning_per_member (d : Dict) (file : string)
    (schema : JVal) (log : list Warning) :
  schema_file cls = Some file ->
  open_schema ext file = Ok schema ->
  jsonschema_validate ext d schema = Ok tt ->
  sound_document d = true ->
  exists ws,
    validate ext cls d log = (Ok true, (log ++ ws)%list) /\
    List.length ws = List.length (List.filter has_directory (expnames d)) /\
    Forall (fun w => w = UserWarning path_warning) ws.
Proof.
  intros Hf Ho Hv Hs. exists (path_warnings d).
  split; [exact (validate_sound ext cls d file schema log Hf Ho Hv Hs) |].
  unfold path_warnings. split; [apply length_map |].
  induction (List.filter has_directory (expnames d)); constructor; auto.
Qed.

(** Property X24: a [finalize] that raises ends the generic [finalize].
    When the associations before it were finalized and the [finalize] of
    one raises, the generic [finalize] raises that exception, and no
    list is returned. *)
Theorem generic_finalize_raises (pre post : list (RuleClass C * Association C))
    (ca : RuleClass C * Association C) (e : exn) :
  Forall (fun ca => exists r, fst (finalize ext (fst ca) (snd ca) []) = Ok r) pre ->
  fst (finalize ext (fst ca) (snd ca) []) = Raise e ->
  forall log,
    fst (generic_finalize (finalize ext) (pre ++ ca :: post) log) = Raise e.
Proof.
  intros Hpre He. unfold generic_finalize.
  induction Hpre as [| [cls0 self0] pre [r Hr] _ IH]; intros log.
  - unfold bind. cbn [app map_M]. unfold bind at 1.
    rewrite (finalize_appends ext (fst ca) (snd ca) log), He. reflexivity.
  - unfold bind in *. cbn [app map_M]. unfold bind at 1.
    cbn [fst snd] in *. rewrite (finalize_appends ext cls0 self0 log), Hr.
    unfold bind at 1.
    specialize (IH (log ++ snd (finalize ext cls0 self0 []))%list).
    destruct (map_M _ (pre ++ ca :: post) _) as [[rs | e'] log']; cbn in IH |- *;
      [discriminate | exact IH].
Qed.

End ValidateCount.

(** ** The further properties on examples *)

Module MoreRuns.
Import Examples.

Lemma add_init_hook_once_witness :
  let a0 := new_association "Asn_Lv2Spec" plain_tree in
  exists ax,
    run_init_hook ax = false /\
    _add Asn_Lv2Spec item_nod1 ax
      = (Ok tt, snd (add Asn_Lv2Spec item_nod1 true a0)).
Proof.
  cbv zeta.
  exact (proj2 (add_init_hook_once Asn_Lv2Spec item_nod1
                  (new_association "Asn_Lv2Spec" plain_tree)
                  (new_association "Asn_Lv2Spec" plain_tree) eq_refl)
               (VBool true) [] _ eq_refl eq_refl).
Defined.

Lemma validate_without_schema_witness :
  let self := association_of (new_data "Asn_NoSchema") in
  finalize ext Asn_NoSchema self []
    = (Ok (RList [self]),
       [LoggerWarning "Cannot validate: the rule has no schema. Presuming OK."]).
Proof.
  cbv zeta.
  exact (proj1 (proj2 (proj2
    (validate_without_schema ext Asn_NoSchema
       (association_of (new_data "Asn_NoSchema")) None ∅ [] eq_refl)))).
Defined.

Lemma validate_missing_products_witness :
  let self := association_of (new_data "Asn_Lv2Spec") in
  finalize lenient_ext Asn_Lv2Spec self [] = (Raise (KeyError "products"), []).
Proof.
  cbv zeta.
  exact (proj1 (proj2 (proj2
    (validate_missing_products lenient_ext Asn_Lv2Spec
       (association_of (new_data "Asn_Lv2Spec")) "asn_schema.json" JNull []
       eq_refl eq_refl eq_refl eq_refl)))).
Defined.

Lemma validate_plain_names_silent_witness :
  validate ext Asn_Lv2Spec (document "jw_a_rate.fits") [] = (Ok true, []).
Proof.
  apply (validate_plain_names_silent ext Asn_Lv2Spec (document "jw_a_rate.fits")
           "asn_schema.json" JNull [] eq_refl eq_refl eq_refl eq_refl).
  constructor; [| constructor].
  cbn. intuition discriminate.
Defined.

Lemma load_format_error_propagates_witness :
  load ext Asn_Broken "---" None true ∅ [] = (Raise (OtherError "reader broke"), []).
Proof.
  apply (load_format_error_propagates ext Asn_Broken "---" true ∅ []
           [json_format] [yaml_format] broken_format (OtherError "reader broke")
           (lookup_empty "format") eq_refl).
  - constructor; [eexists; reflexivity | constructor].
  - reflexivity.
  - discriminate.
Defined.

Lemma create_makes_member_witness :
  let asn :=
    snd (add Asn_Lv2Spec item_nod1 true
           (__init__ "1.0" {| tree := Composite ALL []; history := [] |}
              (fun c _ => c) (fun c => c) Asn_Lv2Spec
              (Some {| tree := plain_tree; history := [] |}) None None)) in
  create Asn_Lv2Spec new_Asn_Lv2Spec item_nod1 None = Ok (Some asn, []) /\
  add Asn_Lv2Spec item_nod1 true asn = (Ok (VBool true, []), asn).
Proof.
  cbv zeta. split; [reflexivity |].
  apply (create_makes_member Asn_Lv2Spec new_Asn_Lv2Spec item_nod1 None _ []
           (rule_variant_member_query _ _ _ _ item_nod1)
           (rule_variant_add_member _ _ _ _ item_nod1)).
  - reflexivity.
  - right. exists "force_match". reflexivity.
Defined.

Lemma generic_finalize_keeps_valid_witness :
  let kept := association_of (document "jw_a_rate.fits") in
  let dropped := association_of (new_data "Asn_Lv2Spec") in
  generic_finalize (finalize ext)
    [(Asn_Lv2Spec, dropped); (Asn_Lv2Spec, kept)] []
  = (Ok [RList [kept]], []).
Proof.
  cbv zeta.
  apply (generic_finalize_keeps_valid ext
           [(Asn_Lv2Spec, association_of (new_data "Asn_Lv2Spec"));
            (Asn_Lv2Spec, association_of (document "jw_a_rate.fits"))]).
  repeat (constructor; [eexists; reflexivity |]). constructor.
Defined.

Lemma _add_items_first_then_again_witness :
  let a0 := association_of (new_data "Asn_Lv2Spec") in
  let items := JList [JStr "jw_a_rate.fits"] in
  exists a1,
    _add_items items a0 = (Ok tt, a1) /\
    __getitem__ "members" a1 = (Ok items, a1) /\
    _add_items (JList [JStr "jw_b_rate.fits"]) a1 = (Raise AttributeError, a1).
Proof.
  cbv zeta.
  destruct (_add_items_first_then_again (JList [JStr "jw_a_rate.fits"])
              (association_of (new_data "Asn_Lv2Spec")) eq_refl)
    as (a1 & Hfirst & Hget & _ & Hagain).
  exists a1. split; [exact Hfirst |]. split; [exact Hget |].
  exact (Hagain _ _ eq_refl).
Defined.

Lemma _add_items_merges_witness :
  let a0 := association_of [("members", JDict [("a", JStr "science")])] in
  let items := [("b", JStr "background"); ("a", JStr "imprint")] in
  (exists a1 d1,
     _add_items (JDict items) a0 = (Ok tt, a1) /\
     dict_get "members" (data a1) = Some (JDict d1) /\
     (forall k, dict_get k d1 = match dict_get k items with
                                | Some v => Some v
                                | None => dict_get k [("a", JStr "science")]
                                end) /\
     forall key, key <> "members" ->
       dict_get key (data a1) = dict_get key (data a0)) /\
  data (snd (_add_items (JDict items) a0))
    = [("members", JDict [("a", JStr "imprint"); ("b", JStr "background")])].
Proof.
  cbv zeta. split; [| vm_compute; reflexivity].
  apply (_add_items_merges [("a", JStr "science")]
           [("b", JStr "background"); ("a", JStr "imprint")]
           (association_of [("members", JDict [("a", JStr "science")])])
           eq_refl).
  cbn. apply NoDup_cons. split; [| apply NoDup_singleton].
  intros Hin. apply list_elem_of_singleton in Hin. discriminate.
Defined.

Lemma get_product_names_duplicates_witness :
  let asns := [association_named "a3001" "jw_p1"; association_named "o001" "jw_p1";
               association_named "o002" "jw_p2"] in
  let product_names := [SStr "jw_p1"; SStr "jw_p1"; SStr "jw_p2"] in
  (exists names dups,
     get_product_names asns = Ok (names, dups) /\
     (forall x, x ∈ names <-> x ∈ product_names) /\
     (forall x, x ∈ dups <-> 2 <= count_occ Scalar_eq_dec product_names x) /\
     NoDup dups /\
     (dups = [] <-> NoDup product_names)) /\
  match get_product_names asns with
  | Ok (_, dups) => dups = [SStr "jw_p1"]
  | Raise _ => False
  end.
Proof.
  cbv zeta. split; [| vm_compute; reflexivity].
  exact (get_product_names_duplicates
           [association_named "a3001" "jw_p1"; association_named "o001" "jw_p1";
            association_named "o002" "jw_p2"]
           [JStr "jw_p1"; JStr "jw_p1"; JStr "jw_p2"]
           [SStr "jw_p1"; SStr "jw_p1"; SStr "jw_p2"] eq_refl eq_refl).
Defined.

Lemma get_product_names_unreadable_witness :
  get_product_names
    [association_named "o001" "jw_p1"; association_of (new_data "Asn_Lv2Spec");
     association_named "o002" "jw_p2"]
  = Raise (KeyError "products").
Proof.
  exact (proj1 (get_product_names_unreadable
                  [association_named "o001" "jw_p1"]
                  [association_named "o002" "jw_p2"]
                  (association_of (new_data "Asn_Lv2Spec"))
                  [JStr "jw_p1"] (KeyError "products") eq_refl eq_refl)).
Defined.

Lemma find_closest_direct_first_long_witness :
  find_closest_direct JNull
    [direct "jw_nrca1_rate.fits"; direct "jw_nrcalong_rate.fits";
     direct "jw_nrcblong_rate.fits"]
  = Ok (direct "jw_nrcalong_rate.fits").
Proof.
  destruct (find_closest_direct_first_long JNull
              [direct "jw_nrca1_rate.fits"; direct "jw_nrcalong_rate.fits";
               direct "jw_nrcblong_rate.fits"]
              long_of (direct "jw_nrca1_rate.fits")
              [direct "jw_nrcalong_rate.fits"; direct "jw_nrcblong_rate.fits"])
    as (d & Hres & _ & Hd).
  - repeat (constructor; [reflexivity |]). constructor.
  - reflexivity.
  - rewrite Hres. cbn in Hd. destruct Hd as [-> _]. reflexivity.
Defined.

Lemma sort_by_candidate_sorted_witness :
  let asns := [association_named "o002" "jw_p2"; association_named "a3001" "jw_p1";
               association_named "c1000" "jw_p3"] in
  (exists res,
     sort_by_candidate asns = Ok res /\
     res ≡ₚ asns /\
     Sorted (fun a b => String.leb (id_of a) (id_of b) = true) res /\
     forall s, List.filter (fun a => String.eqb (id_of a) s) res
               = List.filter (fun a => String.eqb (id_of a) s) asns) /\
  sort_by_candidate asns
    = Ok [association_named "a3001" "jw_p1"; association_named "c1000" "jw_p3";
          association_named "o002" "jw_p2"].
Proof.
  cbv zeta. split; [| vm_compute; reflexivity].
  apply (sort_by_candidate_sorted
           [association_named "o002" "jw_p2"; association_named "a3001" "jw_p1";
            association_named "c1000" "jw_p3"] id_of).
  repeat (constructor; [reflexivity |]). constructor.
Defined.

Lemma sort_by_candidate_missing_id_witness :
  sort_by_candidate
    [association_named "o002" "jw_p2"; association_of (new_data "Asn_Lv2Spec")]
  = Raise (KeyError "asn_id").
Proof.
  apply (sort_by_candidate_missing_id [association_named "o002" "jw_p2"] []
           (association_of (new_data "Asn_Lv2Spec"))).
  - constructor; [eexists; reflexivity | constructor].
  - reflexivity.
Defined.

Lemma add_reprocess_tagged_witness :
  let res := add Asn_Requesting item_image true new_requesting in
  fst res = Ok (VBool false,
                [{| items := [item_image]; work_over := BOTH;
                    rules := Some ["Asn_Requesting"];
                    trigger_rules := {["Asn_Requesting"]} ∪ ∅ |}]) /\
  Forall (fun p => "Asn_Requesting" ∈ trigger_rules p /\ rules p <> None)
         [set_trigger "Asn_Requesting" (request item_image)].
Proof.
  cbv zeta. split; [reflexivity |].
  exact (proj2 (add_reprocess_tagged Asn_Requesting item_image
                  new_requesting new_requesting
                  (snd (add Asn_Requesting item_image true new_requesting))
                  false (VBool false)
                  [set_trigger "Asn_Requesting" (request item_image)]
                  eq_refl eq_refl)).
Defined.

Lemma validate_one_warning_per_member_witness :
  exists ws,
    validate ext Asn_Lv2Spec (document "path/to/jw_a_rate.fits") []
      = (Ok true, ([] ++ ws)%list) /\
    List.length ws = 1 /\
    Forall (fun w => w = UserWarning path_warning) ws.
Proof.
  exact (validate_one_warning_per_member ext Asn_Lv2Spec
           (document "path/to/jw_a_rate.fits") "asn_schema.json" JNull []
           eq_refl eq_refl eq_refl eq_refl).
Defined.

Lemma generic_finalize_raises_witness :
  fst (generic_finalize (finalize lenient_ext)
         [(Asn_Lv2Spec, association_of (document "jw_a_rate.fits"));
          (Asn_Lv2Spec, association_of (new_data "Asn_Lv2Spec"));
          (Asn_Lv2Spec, association_of (document "jw_b_rate.fits"))] [])
  = Raise (KeyError "products").
Proof.
  apply (generic_finalize_raises lenient_ext
           [(Asn_Lv2Spec, association_of (document "jw_a_rate.fits"))]
           [(Asn_Lv2Spec, association_of (document "jw_b_rate.fits"))]
           (Asn_Lv2Spec, association_of (new_data "Asn_Lv2Spec"))
           (KeyError "products")).
  - constructor; [eexists; reflexivity | constructor].
  - reflexivity.
Defined.

End MoreRuns.
